(** * scanner_diff.py: normalisation, comparison and aggregation of
      Trivy and Grype findings

    A shallow embedding of [VulnerabilityScanner] (src/scanner_diff.py)
    and the properties of its extractors, comparator and aggregator.

    Conventions of the embedding.
    - A parsed JSON document is a value of [json]; an object keeps its
      members in document order and a lookup takes the last binding of a
      key, as [json.loads] does.  A JSON number is kept as an integer:
      the code only ever tests a number for being zero.
    - A Python str is kept as the bytes of its UTF-8 encoding, which
      order as its code points do.  [str.upper] maps a-z to A-Z on ASCII
      text; on any other text it is Python's Unicode case mapping, a
      builtin that is taken as given ([UnicodeUpper]).
    - A Python call either returns, raises, or returns a value outside
      its annotated type ([outcome]).
    - [Counter] and [dict] with string keys are [gmap string nat]; a
      [set] of finding keys is a [gset (string * string)]. *)

From Stdlib Require Import Ascii String OrdersEx DecimalString.
From stdpp Require Import gmap strings list sorting fin_maps.

Open Scope string_scope.
Open Scope list_scope.
Set Warnings "-register-all,-clear-no-such-hyp".

(** ** Python values and call outcomes *)

Inductive json : Type :=
  | JNull
  | JBool (b : bool)
  | JNum (n : Z)
  | JStr (s : string)
  | JArr (items : list json)
  | JObj (members : list (string * json)).

Inductive exn : Type :=
  | AttributeError
  | TypeError
  | OSError
  | UnicodeDecodeError
  | RecursionError
  | ValueError.

(** [OffType]: the call returned, but with a finding key one of whose
    components is not a [str] (a number or a boolean), outside the
    annotated [Set[Tuple[str, str]]]; the embedding does not follow such
    a value further. *)
Inductive outcome (A : Type) : Type :=
  | Ok (a : A)
  | Raise (e : exn)
  | OffType.

Arguments Ok {A} a.
Arguments Raise {A} e.
Arguments OffType {A}.

Definition bind {A B : Type} (m : outcome A) (k : A -> outcome B) : outcome B :=
  match m with
  | Ok a => k a
  | Raise e => Raise e
  | OffType => OffType
  end.

Notation "'let*' x ':=' m 'in' k" := (bind m (fun x => k))
  (at level 10, x name, m at level 100, k at level 200).

Definition returns {A : Type} (m : outcome A) : bool :=
  match m with Ok _ => true | _ => false end.

Definition raises {A : Type} (m : outcome A) : bool :=
  match m with Raise _ => true | _ => false end.

(** Truth value of a Python object, as [if x:] and [not x] take it. *)
Definition truthy (v : json) : bool :=
  match v with
  | JNull => false
  | JBool b => b
  | JNum n => negb (n =? 0)%Z
  | JStr s => negb (String.eqb s "")
  | JArr items => match items with [] => false | _ => true end
  | JObj members => match members with [] => false | _ => true end
  end.

(** [d[k]] on the members of an object: the last binding wins. *)
Fixpoint lookup_member (k : string) (members : list (string * json)) : option json :=
  match members with
  | [] => None
  | (k', v) :: rest =>
      match lookup_member k rest with
      | Some w => Some w
      | None => if String.eqb k k' then Some v else None
      end
  end.

(** [x.get(k, default)]: only a dict has the attribute [get]. *)
Definition py_get (x : json) (k : string) (default : json) : outcome json :=
  match x with
  | JObj members =>
      Ok (match lookup_member k members with Some v => v | None => default end)
  | _ => Raise AttributeError
  end.

(** [for item in x]: a list yields its items, a str its characters, a
    dict its keys; nothing else is iterable. *)
Definition py_iter (x : json) : outcome (list json) :=
  match x with
  | JArr items => Ok items
  | JStr s => Ok ((fun c => JStr (String c "")) <$> list_ascii_of_string s)
  | JObj members => Ok ((fun kv => JStr kv.1) <$> members)
  | _ => Raise TypeError
  end.

(** ** Text *)

Definition upper_ascii (c : ascii) : ascii :=
  let n := nat_of_ascii c in
  if (97 <=? n)%nat && (n <=? 122)%nat then ascii_of_nat (n - 32) else c.

(** [str.upper] on ASCII text. *)
Fixpoint ascii_upper (s : string) : string :=
  match s with
  | EmptyString => EmptyString
  | String c rest => String (upper_ascii c) (ascii_upper rest)
  end.

Fixpoint is_ascii (s : string) : bool :=
  match s with
  | EmptyString => true
  | String c rest => (nat_of_ascii c <? 128)%nat && is_ascii rest
  end.

(** [str.upper] on text that is not ASCII: the Unicode case mapping of
    the interpreter. *)
Class UnicodeUpper : Type := unicode_upper : string -> string.

(** The two non-ASCII labels of the examples, in UTF-8: the small sharp
    s (U+00DF) and the capital sharp s (U+1E9E). *)
Definition small_sharp_s : string := String "195" (String "159" "").

Definition capital_sharp_s : string := String "225" (String "186" (String "158" "")).

(** The Unicode case mapping as far as the examples use it: [str.upper]
    turns the small sharp s into SS and leaves the capital sharp s as it
    is. *)
Definition example_unicode_upper : UnicodeUpper :=
  fun s => if String.eqb s small_sharp_s then "SS" else s.

Section Builtins.

Context {builtin_upper : UnicodeUpper}.

(** [s.upper()] *)
Definition upper (s : string) : string :=
  if is_ascii s then ascii_upper s else unicode_upper s.

(** [x.upper()]: only a str has the attribute [upper]. *)
Definition py_upper (x : json) : outcome string :=
  match x with
  | JStr s => Ok (upper s)
  | _ => Raise AttributeError
  end.

(** ** Normalised scan results *)

Definition finding_key : Type := string * string.

Definition normalized : Type := gset finding_key * gmap string nat.

Definition empty_result : normalized := (∅, ∅).

(** [severity_counts[severity] += n] on a [Counter]. *)
Definition counter_add (severity : string) (n : nat) (counts : gmap string nat)
  : gmap string nat :=
  <[severity := default 0 (counts !! severity) + n]> counts.

(** Building and hashing the tuple [(vuln_id, pkg_name)] for [vulns.add]:
    a list or a dict is unhashable. *)
Definition hashable (v : json) : bool :=
  match v with
  | JArr _ | JObj _ => false
  | _ => true
  end.

Definition make_key (vuln_id pkg_name : json) : outcome finding_key :=
  if hashable vuln_id && hashable pkg_name then
    match vuln_id, pkg_name with
    | JStr i, JStr p => Ok (i, p)
    | _, _ => OffType
    end
  else Raise TypeError.

(** The body shared by both loops once the three fields are read:
    [if vuln_id and pkg_name: vulns.add(...); severity_counts[...] += 1]. *)
Definition record_finding (vuln_id pkg_name : json) (severity : string)
    (acc : normalized) : outcome normalized :=
  if truthy vuln_id && truthy pkg_name then
    let* key := make_key vuln_id pkg_name in
    Ok ({[key]} ∪ acc.1, counter_add severity 1 acc.2)
  else Ok acc.

(** A [for] loop over [items] threading the accumulator; the first
    exception leaves the loop. *)
Fixpoint for_each {A S : Type} (body : A -> S -> outcome S) (items : list A)
    (acc : S) : outcome S :=
  match items with
  | [] => Ok acc
  | x :: rest => let* acc' := body x acc in for_each body rest acc'
  end.

(** ** extract_trivy_vulns *)

Definition trivy_vuln (vuln : json) (acc : normalized) : outcome normalized :=
  let* vuln_id := py_get vuln "VulnerabilityID" (JStr "") in
  let* pkg_name := py_get vuln "PkgName" (JStr "") in
  let* raw := py_get vuln "Severity" (JStr "UNKNOWN") in
  let* severity := py_upper raw in
  record_finding vuln_id pkg_name severity acc.

Definition trivy_result (result : json) (acc : normalized) : outcome normalized :=
  let* vulnerabilities := py_get result "Vulnerabilities" (JArr []) in
  let* items := py_iter vulnerabilities in
  for_each trivy_vuln items acc.

Definition extract_trivy_vulns (trivy_data : json) : outcome normalized :=
  if negb (truthy trivy_data) then Ok empty_result
  else
    let* results := py_get trivy_data "Results" (JArr []) in
    let* items := py_iter results in
    for_each trivy_result items empty_result.

(** ** extract_grype_vulns *)

Definition grype_match (m : json) (acc : normalized) : outcome normalized :=
  let* vulnerability := py_get m "vulnerability" (JObj []) in
  let* vuln_id := py_get vulnerability "id" (JStr "") in
  let* artifact := py_get m "artifact" (JObj []) in
  let* pkg_name := py_get artifact "name" (JStr "") in
  let* vulnerability' := py_get m "vulnerability" (JObj []) in
  let* raw := py_get vulnerability' "severity" (JStr "Unknown") in
  let* severity := py_upper raw in
  record_finding vuln_id pkg_name severity acc.

Definition extract_grype_vulns (grype_data : json) : outcome normalized :=
  if negb (truthy grype_data) then Ok empty_result
  else
    let* matches := py_get grype_data "matches" (JArr []) in
    let* items := py_iter matches in
    for_each grype_match items empty_result.

(** ** compare_results *)

(** [a < b] on tuples of two strings: the first components decide unless
    they are equal. *)
Definition key_lt (a b : finding_key) : bool :=
  match String.compare a.1 b.1 with
  | Lt => true
  | Gt => false
  | Eq => String.ltb a.2 b.2
  end.

(** The order [sorted] works with: it keeps [a] before [b] unless
    [b < a]. *)
Definition key_le (a b : finding_key) : Prop := key_lt b a = false.

Global Instance key_le_dec : RelDecision key_le.
Proof. intros a b. unfold key_le. apply _. Defined.

Definition sorted (l : list finding_key) : list finding_key :=
  merge_sort key_le l.

Record scanner_side : Type := {
  total : nat;
  severity : gmap string nat
}.

Record comparison_counts : Type := {
  common_count : nat;
  only_trivy_count : nat;
  only_grype_count : nat
}.

Record comparison_details : Type := {
  only_trivy : list finding_key;
  only_grype : list finding_key;
  common : list finding_key
}.

Record image_comparison : Type := {
  image : string;
  trivy : scanner_side;
  grype : scanner_side;
  comparison : comparison_counts;
  details : comparison_details
}.

Definition compare_results (image : string)
    (trivy_vulns grype_vulns : gset finding_key)
    (trivy_severity grype_severity : gmap string nat) : image_comparison :=
  let only_trivy := trivy_vulns ∖ grype_vulns in
  let only_grype := grype_vulns ∖ trivy_vulns in
  let both := trivy_vulns ∩ grype_vulns in
  {| image := image;
     trivy := {| total := size trivy_vulns; severity := trivy_severity |};
     grype := {| total := size grype_vulns; severity := grype_severity |};
     comparison := {| common_count := size both;
                      only_trivy_count := size only_trivy;
                      only_grype_count := size only_grype |};
     details := {| only_trivy := sorted (elements only_trivy);
                   only_grype := sorted (elements only_grype);
                   common := sorted (elements both) |} |}.

(** ** The scanner object, the adapters and scan_all *)

Record scanner : Type := {
  images : list string;
  results : list image_comparison
}.

(** [VulnerabilityScanner(images)] *)
Definition init (images : list string) : scanner :=
  {| images := images; results := [] |}.

(** What [json.loads(text)] does: it returns the parsed value, raises
    [json.JSONDecodeError], or raises something else (a [RecursionError]
    on deeply nested text, a [ValueError] on an over-long number). *)
Inductive loads_result : Type :=
  | Parsed (data : json)
  | JSONDecodeError
  | LoadsRaises (e : exn).

(** What [subprocess.run(argv, capture_output=True, text=True)] does: it
    raises (the binary cannot be started, the output is not text) or
    hands back the finished process. *)
Inductive run_result : Type :=
  | RunRaises (e : exn)
  | Completed (returncode : Z) (stdout stderr : string).

Section Scanning.

(** The two things outside the program: the processes it starts and
    the JSON parser. *)
Variable subprocess_run : list string -> run_result.
Variable json_loads : string -> loads_result.

(** The part of both adapters after [subprocess.run]: exit status and
    stderr play no role, and of the exceptions of [json.loads] only
    [json.JSONDecodeError] is caught. *)
Definition read_output (r : run_result) : outcome json :=
  match r with
  | RunRaises e => Raise e
  | Completed _ stdout _ =>
      if truthy (JStr stdout) then
        match json_loads stdout with
        | Parsed data => Ok data
        | JSONDecodeError => Ok (JObj [])
        | LoadsRaises e => Raise e
        end
      else Ok (JObj [])
  end.

Definition scan_with_trivy (image : string) : outcome json :=
  read_output (subprocess_run ["trivy"; "image"; "--format"; "json"; "--quiet"; image]).

Definition scan_with_grype (image : string) : outcome json :=
  read_output (subprocess_run ["grype"; image; "-o"; "json"; "-q"]).

(** One turn of the loop of [scan_all]; [done] is [self.results]. *)
Definition scan_image (image : string) (done : list image_comparison)
  : outcome (list image_comparison) :=
  let* trivy_data := scan_with_trivy image in
  let* grype_data := scan_with_grype image in
  let* t := extract_trivy_vulns trivy_data in
  let* g := extract_grype_vulns grype_data in
  Ok (done ++ [compare_results image t.1 g.1 t.2 g.2]).

Definition scan_all (self : scanner) : outcome scanner :=
  let* results' := for_each scan_image (images self) (results self) in
  Ok {| images := images self; results := results' |}.

End Scanning.

(** ** generate_report *)

Record totals : Type := {
  total_trivy_severity : gmap string nat;
  total_grype_severity : gmap string nat;
  total_trivy : nat;
  total_grype : nat;
  total_common : nat;
  total_only_trivy : nat;
  total_only_grype : nat
}.

Definition zero_totals : totals :=
  {| total_trivy_severity := ∅; total_grype_severity := ∅;
     total_trivy := 0; total_grype := 0; total_common := 0;
     total_only_trivy := 0; total_only_grype := 0 |}.

(** [for severity, count in d.items(): total[severity] += count] *)
Definition add_counts (d total : gmap string nat) : gmap string nat :=
  map_fold counter_add total d.

(** One turn of the loop over [self.results]. *)
Definition accumulate (t : totals) (result : image_comparison) : totals :=
  {| total_trivy := total_trivy t + total (trivy result);
     total_grype := total_grype t + total (grype result);
     total_common := total_common t + common_count (comparison result);
     total_only_trivy := total_only_trivy t + only_trivy_count (comparison result);
     total_only_grype := total_only_grype t + only_grype_count (comparison result);
     total_trivy_severity :=
       add_counts (severity (trivy result)) (total_trivy_severity t);
     total_grype_severity :=
       add_counts (severity (grype result)) (total_grype_severity t) |}.

Record scanner_summary : Type := {
  total_findings : nat;
  severity_totals : gmap string nat
}.

Record comparison_summary : Type := {
  common_findings : nat;
  only_trivy_findings : nat;
  only_grype_findings : nat
}.

Record summary : Type := {
  images_scanned : nat;
  trivy_summary : scanner_summary;
  grype_summary : scanner_summary;
  comparison_totals : comparison_summary
}.

Record report : Type := {
  report_summary : summary;
  per_image : list image_comparison
}.

Definition generate_report (self : scanner) : report :=
  let t := foldl accumulate zero_totals (results self) in
  {| report_summary :=
       {| images_scanned := length (images self);
          trivy_summary := {| total_findings := total_trivy t;
                              severity_totals := total_trivy_severity t |};
          grype_summary := {| total_findings := total_grype t;
                              severity_totals := total_grype_severity t |};
          comparison_totals := {| common_findings := total_common t;
                                  only_trivy_findings := total_only_trivy t;
                                  only_grype_findings := total_only_grype t |} |};
     per_image := results self |}.

(** ** The data model of the specification *)

(** The normalised result as the data model words it: every finding is
    read with a tolerant accessor (default on absence at every level),
    findings with an empty id or an empty package name are dropped, the
    key set holds the keys of the rest and the histogram counts the rest
    one by one under their upper-cased label.  These definitions follow
    the specification; the extractors above follow the code. *)

Record finding : Type := {
  vulnerability_id : string;
  package_name : string;
  severity_label : string
}.

Definition member_or (default : json) (k : string) (x : json) : json :=
  match x with
  | JObj members =>
      match lookup_member k members with Some v => v | None => default end
  | _ => default
  end.

Definition items_of (x : json) : list json :=
  match x with JArr items => items | _ => [] end.

Definition text_of (x : json) : string :=
  match x with JStr s => s | _ => "" end.

Definition trivy_findings (trivy_data : json) : list json :=
  result ← items_of (member_or (JArr []) "Results" trivy_data);
  items_of (member_or (JArr []) "Vulnerabilities" result).

Definition trivy_fields (vuln : json) : finding :=
  {| vulnerability_id := text_of (member_or (JStr "") "VulnerabilityID" vuln);
     package_name := text_of (member_or (JStr "") "PkgName" vuln);
     severity_label := upper (text_of (member_or (JStr "UNKNOWN") "Severity" vuln)) |}.

Definition grype_findings (grype_data : json) : list json :=
  items_of (member_or (JArr []) "matches" grype_data).

Definition grype_fields (m : json) : finding :=
  let vulnerability := member_or (JObj []) "vulnerability" m in
  let artifact := member_or (JObj []) "artifact" m in
  {| vulnerability_id := text_of (member_or (JStr "") "id" vulnerability);
     package_name := text_of (member_or (JStr "") "name" artifact);
     severity_label := upper (text_of (member_or (JStr "Unknown") "severity" vulnerability)) |}.

Definition qualifies (f : finding) : bool :=
  negb (String.eqb (vulnerability_id f) "") && negb (String.eqb (package_name f) "").

Definition key_of (f : finding) : finding_key := (vulnerability_id f, package_name f).

(** One count per label occurrence. *)
Definition tally (labels : list string) : gmap string nat :=
  foldl (fun h s => counter_add s 1 h) ∅ labels.

Definition normalize (fs : list finding) : normalized :=
  (list_to_set (key_of <$> fs), tally (severity_label <$> fs)).

(** Sum of the counts of a histogram. *)
Definition hist_total (h : gmap string nat) : nat :=
  map_fold (fun _ c acc => c + acc) 0 h.

(** The accumulator after one more finding, in the words of the model. *)
Definition add_finding (acc : normalized) (f : finding) : normalized :=
  if qualifies f then ({[key_of f]} ∪ acc.1, counter_add (severity_label f) 1 acc.2)
  else acc.

(** ** Typed documents *)

(** A document is typed when every backend field that is present holds
    the kind of value the scanner writes there; any field may be
    absent. *)

Definition is_str (v : json) : bool :=
  match v with JStr _ => true | _ => false end.

Definition field_is (check : json -> bool) (k : string) (x : json) : bool :=
  match x with
  | JObj members =>
      match lookup_member k members with Some v => check v | None => true end
  | _ => false
  end.

Definition list_of (check : json -> bool) (v : json) : bool :=
  match v with JArr items => forallb check items | _ => false end.

Definition trivy_vuln_typed (vuln : json) : bool :=
  field_is is_str "VulnerabilityID" vuln && field_is is_str "PkgName" vuln
  && field_is is_str "Severity" vuln.

Definition trivy_result_typed (result : json) : bool :=
  field_is (list_of trivy_vuln_typed) "Vulnerabilities" result.

Definition trivy_typed (trivy_data : json) : bool :=
  negb (truthy trivy_data) || field_is (list_of trivy_result_typed) "Results" trivy_data.

Definition grype_match_typed (m : json) : bool :=
  field_is (fun v => field_is is_str "id" v && field_is is_str "severity" v)
    "vulnerability" m
  && field_is (field_is is_str "name") "artifact" m.

Definition grype_typed (grype_data : json) : bool :=
  negb (truthy grype_data) || field_is (list_of grype_match_typed) "matches" grype_data.

(** ** Documents with given findings *)

Definition trivy_vuln_of (i p s : string) : json :=
  JObj [("VulnerabilityID", JStr i); ("PkgName", JStr p); ("Severity", JStr s)].

Definition trivy_doc (vulns : list json) : json :=
  JObj [("Results", JArr [JObj [("Vulnerabilities", JArr vulns)]])].

Definition grype_match_of (i p s : string) : json :=
  JObj [("vulnerability", JObj [("id", JStr i); ("severity", JStr s)]);
        ("artifact", JObj [("name", JStr p)])].

Definition grype_doc (matches : list json) : json :=
  JObj [("matches", JArr matches)].

(** ** Labels up to case *)

Definition is_lower_code (n : nat) : bool := ((97 <=? n) && (n <=? 122))%nat.

(** Two characters that are the same, or the two cases of one letter. *)
Definition same_letter (a b : ascii) : bool :=
  let x := nat_of_ascii a in
  let y := nat_of_ascii b in
  (x =? y)%nat || (is_lower_code x && (y =? x - 32)%nat)
  || (is_lower_code y && (x =? y - 32)%nat).

(** Two labels that differ at most in the case of their letters. *)
Fixpoint equal_ignoring_case (s t : string) : bool :=
  match s, t with
  | EmptyString, EmptyString => true
  | String a s', String b t' => same_letter a b && equal_ignoring_case s' t'
  | _, _ => false
  end.

(** ** Images whose scan goes through *)

(** What one image needs for its turn of [scan_all] to go through: both
    processes finish, and what the adapters hand on is typed.  An empty
    or unparsable output passes: it has become [{}]. *)
Definition scan_typed (subprocess_run : list string -> run_result)
    (json_loads : string -> loads_result) (image : string) : bool :=
  match scan_with_trivy subprocess_run json_loads image,
        scan_with_grype subprocess_run json_loads image with
  | Ok trivy_data, Ok grype_data => trivy_typed trivy_data && grype_typed grype_data
  | _, _ => false
  end.

(** ** Trivy documents with several results *)

Definition trivy_result_of (vulns : list json) : json :=
  JObj [("Vulnerabilities", JArr vulns)].

Definition trivy_results_doc (results : list json) : json :=
  JObj [("Results", JArr results)].

(** Two normalised results put together: the keys of both, the counts
    of the second added into the first as [generate_report] adds
    histograms. *)
Definition merge_results (r1 r2 : normalized) : normalized :=
  (r1.1 ∪ r2.1, add_counts r2.2 r1.2).

(** ** print_summary *)

(** [str(n)] for a count. *)
Definition str_of_nat (n : nat) : string :=
  NilEmpty.string_of_uint (Nat.to_uint n).

(** [s * n] on strings. *)
Fixpoint repeat_str (s : string) (n : nat) : string :=
  match n with
  | 0 => ""
  | S k => (s ++ repeat_str s k)%string
  end.

(** [f"{n:3d}"]: right-aligned in a field of three, never cut. *)
Definition format_3d (n : nat) : string :=
  let digits := str_of_nat n in
  (repeat_str " " (3 - String.length digits) ++ digits)%string.

(** [d.get(k, 0)] *)
Definition counter_get (d : gmap string nat) (k : string) : nat :=
  default 0 (d !! k).

(** The line of one scanner in the per-image breakdown. *)
Definition breakdown_line (name : string) (side : scanner_side) : string :=
  ("  " ++ name ++ ":  " ++ format_3d (total side)
   ++ "  (C:" ++ str_of_nat (counter_get (severity side) "CRITICAL")
   ++ " H:" ++ str_of_nat (counter_get (severity side) "HIGH")
   ++ " M:" ++ str_of_nat (counter_get (severity side) "MEDIUM")
   ++ " L:" ++ str_of_nat (counter_get (severity side) "LOW") ++ ")")%string.

(** The four [print] calls of one turn of the per-image loop. *)
Definition breakdown_lines (result : image_comparison) : list string :=
  [(image result ++ ":")%string;
   breakdown_line "Trivy" (trivy result);
   breakdown_line "Grype" (grype result);
   ""].

Definition shown_severities : list string := ["CRITICAL"; "HIGH"; "MEDIUM"; "LOW"].

(** The block of one scanner in the cumulative summary. *)
Definition cumulative_lines (name : string) (s : scanner_summary) : list string :=
  [(name ++ ":")%string; ("  Total: " ++ str_of_nat (total_findings s))%string]
  ++ ((fun sev => ("  " ++ sev ++ ": "
                   ++ str_of_nat (counter_get (severity_totals s) sev))%string)
      <$> shown_severities).

(** What [print_summary] writes to standard output, one string per
    [print] call. *)
Definition print_summary (self : scanner) : list string :=
  let report := generate_report self in
  (results self ≫= breakdown_lines)
  ++ [repeat_str "=" 50; "CUMULATIVE TOTAL"; repeat_str "=" 50; ""]
  ++ cumulative_lines "Trivy" (trivy_summary (report_summary report))
  ++ [""]
  ++ cumulative_lines "Grype" (grype_summary (report_summary report)).

(** Two records that print alike: same image, same totals and the same
    counts under the four labels [print_summary] shows. *)
Definition same_shown_side (a b : scanner_side) : Prop :=
  total a = total b
  /\ Forall (fun label => counter_get (severity a) label = counter_get (severity b) label)
       shown_severities.

Definition same_shown (r r' : image_comparison) : Prop :=
  image r = image r'
  /\ same_shown_side (trivy r) (trivy r') /\ same_shown_side (grype r) (grype r').

(** ** main *)

(** The parsed command line: [images] (one or more), [-o/--output]
    ([None] when not given) and [--json]. *)
Record cli_args : Type := {
  arg_images : list string;
  arg_output : option string;
  arg_json : bool
}.

(** What [main] leaves behind, standard error apart: a file written
    with a text, a string printed to standard output. *)
Inductive output_event : Type :=
  | FileWritten (path text : string)
  | Printed (text : string).

Section Main.

Variable subprocess_run : list string -> run_result.
Variable json_loads : string -> loads_result.

(** [json.dumps(report, indent=2)]; [json.dump(report, f, indent=2)]
    writes the same text. *)
Variable json_dumps : report -> string.

(** Whether [open(path, "w")] succeeds. *)
Variable can_open : string -> bool.

(** [if args.output: with open(args.output, "w") as f: json.dump(...)] *)
Definition write_output (args : cli_args) (r : report) : outcome (list output_event) :=
  match arg_output args with
  | Some path =>
      if truthy (JStr path) then
        if can_open path then Ok [FileWritten path (json_dumps r)]
        else Raise OSError
      else Ok []
  | None => Ok []
  end.

Definition main (args : cli_args) : outcome (list output_event) :=
  let* scanner := scan_all subprocess_run json_loads (init (arg_images args)) in
  let report := generate_report scanner in
  let* written := write_output args report in
  Ok (written ++ if arg_json args then [Printed (json_dumps report)]
                 else Printed <$> print_summary scanner).

End Main.

(** * Properties *)

(** ** The order on finding keys *)

Lemma compare_as_OT (a b : string) : String.compare a b = String_as_OT.compare a b.
Proof.
  revert b. induction a as [|c a IH]; intros [|d b]; reflexivity.
Qed.

Lemma compare_refl (a : string) : String.compare a a = Eq.
Proof.
  rewrite compare_as_OT.
  destruct (String_as_OT.compare_spec a a) as [_|H|H]; try reflexivity;
    exfalso; revert H; apply (irreflexivity String_as_OT.lt).
Qed.

Lemma compare_Eq (a b : string) : String.compare a b = Eq -> a = b.
Proof. apply String.compare_eq_iff. Qed.

Lemma compare_Gt_Lt (a b : string) : String.compare a b = Gt <-> String.compare b a = Lt.
Proof.
  rewrite (String.compare_antisym a b).
  destruct (String.compare b a); simpl; split; congruence.
Qed.

Lemma compare_Lt_trans (a b c : string) :
  String.compare a b = Lt -> String.compare b c = Lt -> String.compare a c = Lt.
Proof.
  rewrite !compare_as_OT. apply (transitivity (R := String_as_OT.lt)).
Qed.

Lemma key_lt_irrefl (a : finding_key) : key_lt a a = false.
Proof. unfold key_lt, String.ltb. by rewrite !compare_refl. Qed.

Lemma key_lt_trans (a b c : finding_key) :
  key_lt a b = true -> key_lt b c = true -> key_lt a c = true.
Proof.
  destruct a as [a1 a2], b as [b1 b2], c as [c1 c2].
  unfold key_lt, String.ltb; simpl.
  destruct (String.compare a1 b1) eqn:Hab; try discriminate;
    destruct (String.compare b1 c1) eqn:Hbc; try discriminate.
  - apply compare_Eq in Hab, Hbc. subst. rewrite compare_refl.
    destruct (String.compare a2 b2) eqn:H1; try discriminate.
    destruct (String.compare b2 c2) eqn:H2; try discriminate.
    by rewrite (compare_Lt_trans _ _ _ H1 H2).
  - apply compare_Eq in Hab. subst. by rewrite Hbc.
  - apply compare_Eq in Hbc. subst. by rewrite Hab.
  - by rewrite (compare_Lt_trans _ _ _ Hab Hbc).
Qed.

Lemma key_lt_trichotomy (a b : finding_key) :
  key_lt a b = false -> key_lt b a = false -> a = b.
Proof.
  destruct a as [a1 a2], b as [b1 b2].
  unfold key_lt, String.ltb; simpl.
  rewrite (String.compare_antisym b1 a1), (String.compare_antisym b2 a2).
  destruct (String.compare a1 b1) eqn:H1; simpl; try discriminate.
  destruct (String.compare a2 b2) eqn:H2; simpl; try discriminate.
  intros _ _. apply compare_Eq in H1, H2. by subst.
Qed.

Lemma key_lt_asym (a b : finding_key) : key_lt a b = true -> key_lt b a = false.
Proof.
  intros Hab. destruct (key_lt b a) eqn:Hba; [|done].
  pose proof (key_lt_trans _ _ _ Hab Hba) as H.
  by rewrite key_lt_irrefl in H.
Qed.

Global Instance key_le_total : Total key_le.
Proof.
  intros a b. unfold key_le.
  destruct (key_lt b a) eqn:H; [right; by apply key_lt_asym | by left].
Qed.

Global Instance key_le_trans : Transitive key_le.
Proof.
  intros a b c Hab Hbc. unfold key_le in *.
  destruct (key_lt c a) eqn:Hca; [|done].
  destruct (key_lt a b) eqn:Hlt.
  - by rewrite (key_lt_trans _ _ _ Hca Hlt) in Hbc.
  - pose proof (key_lt_trichotomy _ _ Hlt Hab). subst. congruence.
Qed.

Global Instance key_le_antisym : AntiSymm (=) key_le.
Proof. intros a b Hab Hba. by apply key_lt_trichotomy. Qed.

(** [a < b] on keys is the lexicographic order of the pair. *)
Lemma key_lt_lexicographic (a b : finding_key) :
  key_lt a b = true <->
  String.compare a.1 b.1 = Lt \/ (a.1 = b.1 /\ String.compare a.2 b.2 = Lt).
Proof.
  unfold key_lt, String.ltb. split.
  - destruct (String.compare a.1 b.1) eqn:H1; try discriminate; [|by left].
    destruct (String.compare a.2 b.2) eqn:H2; try discriminate.
    right. split; [by apply compare_Eq | done].
  - intros [-> | [-> ->]]; [done | by rewrite compare_refl].
Qed.

(** ** sorted *)

Lemma sorted_Permutation (l : list finding_key) : sorted l ≡ₚ l.
Proof. apply merge_sort_Permutation. Qed.

Lemma elem_of_sorted (k : finding_key) (l : list finding_key) : k ∈ sorted l <-> k ∈ l.
Proof. by rewrite sorted_Permutation. Qed.

Lemma sorted_StronglySorted (l : list finding_key) : StronglySorted key_le (sorted l).
Proof. apply (StronglySorted_merge_sort key_le). Qed.

(** The result of [sorted] does not depend on the order in which the set
    hands out its elements. *)
Lemma sorted_order_independent (l1 l2 : list finding_key) :
  l1 ≡ₚ l2 -> sorted l1 = sorted l2.
Proof.
  intros H. apply (StronglySorted_unique key_le); try apply sorted_StronglySorted.
  by rewrite !sorted_Permutation.
Qed.

Lemma strictly_ascending (l : list finding_key) :
  NoDup l -> StronglySorted key_le l ->
  StronglySorted (fun a b => key_lt a b = true) l.
Proof.
  induction l as [|x l IH]; intros Hnd Hs; [constructor|].
  apply NoDup_cons in Hnd as [Hx Hnd].
  apply StronglySorted_inv in Hs as [Hs Hall].
  constructor; [by apply IH|].
  apply Forall_forall. intros y Hy.
  rewrite Forall_forall in Hall. specialize (Hall y Hy).
  destruct (key_lt x y) eqn:Hxy; [done|].
  rewrite (key_lt_trichotomy x y Hxy Hall) in Hx. contradiction.
Qed.

Lemma sorted_elements_strict (X : gset finding_key) :
  StronglySorted (fun a b => key_lt a b = true) (sorted (elements X)).
Proof.
  apply strictly_ascending; [|apply sorted_StronglySorted].
  rewrite sorted_Permutation. apply NoDup_elements.
Qed.

Lemma sorted_elements_set (X : gset finding_key) :
  list_to_set (sorted (elements X)) = X.
Proof.
  apply set_eq. intros k.
  by rewrite elem_of_list_to_set, elem_of_sorted, elem_of_elements.
Qed.

Lemma length_sorted_elements (X : gset finding_key) :
  length (sorted (elements X)) = size X.
Proof. by rewrite sorted_Permutation. Qed.

(** ** The comparator *)

(** C1. For every image and every two key sets A (Trivy) and B (Grype),
    the three detail lists of [compare_results], read as sets, are
    pairwise disjoint and their union is A ∪ B; the three counts are the
    sizes of these sets and add up to the size of A ∪ B. *)
Theorem compare_results_partition (img : string) (A B : gset finding_key)
    (sa sb : gmap string nat) :
  let r := compare_results img A B sa sb in
  let only_a : gset finding_key := list_to_set (only_trivy (details r)) in
  let only_b : gset finding_key := list_to_set (only_grype (details r)) in
  let both : gset finding_key := list_to_set (common (details r)) in
  only_a ## only_b /\ only_a ## both /\ only_b ## both /\
  only_a ∪ only_b ∪ both = A ∪ B /\
  only_a = A ∖ B /\ only_b = B ∖ A /\ both = A ∩ B /\
  only_trivy_count (comparison r) = size only_a /\
  only_grype_count (comparison r) = size only_b /\
  common_count (comparison r) = size both /\
  only_trivy_count (comparison r) + only_grype_count (comparison r)
    + common_count (comparison r) = size (A ∪ B).
Proof.
  simpl. rewrite !sorted_elements_set, <- !size_union by set_solver.
  assert (A ∖ B ∪ B ∖ A ∪ A ∩ B = A ∪ B) as Hcover.
  { apply set_eq. intros k. rewrite !elem_of_union, !elem_of_difference,
      elem_of_intersection. destruct (decide (k ∈ A)), (decide (k ∈ B)); tauto. }
  rewrite Hcover.
  split; [set_solver|]. split; [set_solver|]. split; [set_solver|].
  repeat split; reflexivity.
Qed.

(** C8. [compare_results] is a total function of its two key sets; each
    of its three detail lists is strictly ascending in the lexicographic
    order of the (vulnerability_id, package_name) pair, lists exactly the
    keys of its set, and is the same whatever order the set is
    enumerated in; two empty sets give three empty lists and zero
    counts. *)
Theorem compare_results_sorted (img : string) (A B : gset finding_key)
    (sa sb : gmap string nat) :
  let r := compare_results img A B sa sb in
  let ascending := StronglySorted (fun a b => key_lt a b = true) in
  (ascending (only_trivy (details r)) /\
   ascending (only_grype (details r)) /\
   ascending (common (details r))) /\
  (forall a b, key_lt a b = true <->
     String.compare a.1 b.1 = Lt \/ (a.1 = b.1 /\ String.compare a.2 b.2 = Lt)) /\
  (forall l, l ≡ₚ elements (A ∖ B) -> sorted l = only_trivy (details r)) /\
  (forall l, l ≡ₚ elements (B ∖ A) -> sorted l = only_grype (details r)) /\
  (forall l, l ≡ₚ elements (A ∩ B) -> sorted l = common (details r)) /\
  details (compare_results img ∅ ∅ sa sb)
    = {| only_trivy := []; only_grype := []; common := [] |} /\
  comparison (compare_results img ∅ ∅ sa sb)
    = {| common_count := 0; only_trivy_count := 0; only_grype_count := 0 |}.
Proof.
  cbv zeta. unfold compare_results.
  cbn [details comparison only_trivy only_grype common].
  split; [repeat split; apply sorted_elements_strict|].
  split; [intros a b; apply key_lt_lexicographic|].
  do 3 (split; [intros l Hl; by apply sorted_order_independent|]).
  assert ((∅ : gset finding_key) ∖ ∅ = ∅) as -> by set_solver.
  assert ((∅ : gset finding_key) ∩ ∅ = ∅) as -> by set_solver.
  rewrite elements_empty, size_empty. split; reflexivity.
Qed.

(** ** The aggregator *)

Lemma lookup_counter_add (s k : string) (n : nat) (m : gmap string nat) :
  counter_add s n m !! k
  = if decide (s = k) then Some (default 0 (m !! s) + n) else m !! k.
Proof.
  unfold counter_add. destruct (decide (s = k)) as [->|Hne].
  - by rewrite lookup_insert_eq.
  - by rewrite lookup_insert_ne.
Qed.

Lemma counter_add_comm (s1 s2 : string) (n1 n2 : nat) (m : gmap string nat) :
  counter_add s1 n1 (counter_add s2 n2 m) = counter_add s2 n2 (counter_add s1 n1 m).
Proof.
  apply map_eq. intros k. rewrite !lookup_counter_add.
  destruct (decide (s1 = k)), (decide (s2 = k)), (decide (s1 = s2)),
    (decide (s2 = s1)); subst; try congruence; simpl; try reflexivity.
  f_equal. lia.
Qed.

Lemma add_counts_insert (s : string) (n : nat) (d total : gmap string nat) :
  d !! s = None ->
  add_counts (<[s := n]> d) total = counter_add s n (add_counts d total).
Proof.
  intros Hs. unfold add_counts. apply map_fold_insert_L; [|done].
  intros. apply counter_add_comm.
Qed.

Lemma lookup_add_counts (d total : gmap string nat) (k : string) :
  add_counts d total !! k
  = match d !! k with
    | Some c => Some (default 0 (total !! k) + c)
    | None => total !! k
    end.
Proof.
  induction d as [|s n d Hs IH] using map_ind.
  - unfold add_counts. by rewrite map_fold_empty, lookup_empty.
  - rewrite add_counts_insert, lookup_counter_add by done.
    destruct (decide (s = k)) as [->|Hne].
    + rewrite lookup_insert_eq, IH, Hs. reflexivity.
    + rewrite lookup_insert_ne by done. apply IH.
Qed.

Lemma add_counts_comm (d1 d2 total : gmap string nat) :
  add_counts d1 (add_counts d2 total) = add_counts d2 (add_counts d1 total).
Proof.
  apply map_eq. intros k. rewrite !lookup_add_counts.
  destruct (d1 !! k), (d2 !! k); simpl; try reflexivity.
  f_equal. lia.
Qed.

Lemma accumulate_comm (t : totals) (r1 r2 : image_comparison) :
  accumulate (accumulate t r1) r2 = accumulate (accumulate t r2) r1.
Proof.
  unfold accumulate; simpl.
  rewrite (add_counts_comm (severity (trivy r2))),
    (add_counts_comm (severity (grype r2))).
  f_equal; lia.
Qed.

Lemma foldl_accumulate_Permutation (rs rs' : list image_comparison) :
  rs ≡ₚ rs' -> forall t, foldl accumulate t rs = foldl accumulate t rs'.
Proof.
  induction 1 as [|r rs rs' _ IH|r1 r2 rs|rs1 rs2 rs3 _ IH1 _ IH2]; intros t; simpl.
  - reflexivity.
  - apply IH.
  - by rewrite accumulate_comm.
  - by rewrite IH1.
Qed.

(** C2. Aggregation does not depend on the order of the per-image
    records: if the records (and the image list) of one scanner object
    are a permutation of those of another, [generate_report] gives both
    the same summary: totals per scanner, severity histograms and the
    three comparison counts. *)
Theorem generate_report_order_independent (self self' : scanner) :
  images self ≡ₚ images self' ->
  results self ≡ₚ results self' ->
  report_summary (generate_report self) = report_summary (generate_report self').
Proof.
  intros Hi Hr. unfold generate_report; simpl.
  by rewrite (foldl_accumulate_Permutation _ _ Hr zero_totals), Hi.
Qed.

(** ** The extractors against the data model *)

(** *** Outcomes *)

Lemma bind_Ok {A B : Type} (m : outcome A) (k : A -> outcome B) (b : B) :
  bind m k = Ok b -> exists a, m = Ok a /\ k a = Ok b.
Proof. destruct m; simpl; intros H; try discriminate. eauto. Qed.

Ltac bind_inv H :=
  let a := fresh "a" in
  let Ha := fresh "Ha" in
  apply bind_Ok in H as (a & Ha & H).

Lemma py_get_Ok (x : json) (k : string) (d v : json) :
  py_get x k d = Ok v -> v = member_or d k x /\ exists ms, x = JObj ms.
Proof. destruct x; simpl; intros H; try discriminate. inversion H. eauto. Qed.

Lemma py_upper_Ok (x : json) (s : string) :
  py_upper x = Ok s -> s = upper (text_of x) /\ exists t, x = JStr t.
Proof. destruct x; simpl; intros H; try discriminate. inversion H. eauto. Qed.

Lemma truthy_text (x : json) :
  (exists s, x = JStr s) -> truthy x = negb (String.eqb (text_of x) "").
Proof. by intros [s ->]. Qed.

Lemma for_each_app {A S : Type} (body : A -> S -> outcome S) (l1 l2 : list A) (acc : S) :
  for_each body (l1 ++ l2) acc
  = let* acc' := for_each body l1 acc in for_each body l2 acc'.
Proof.
  revert acc. induction l1 as [|x l1 IH]; intros acc; simpl; [reflexivity|].
  destruct (body x acc); simpl; auto.
Qed.

(** A loop whose every turn agrees with a pure step computes the fold of
    that step. *)
Lemma for_each_foldl {A S : Type} (body : A -> S -> outcome S) (step : S -> A -> S)
    (items : list A) :
  (forall x acc acc', body x acc = Ok acc' -> acc' = step acc x) ->
  forall acc acc', for_each body items acc = Ok acc' -> acc' = foldl step acc items.
Proof.
  intros Hstep. induction items as [|x items IH]; intros acc acc' H; simpl in *.
  - by inversion H.
  - bind_inv H. apply Hstep in Ha. subst. by apply IH.
Qed.

(** *** What record_finding adds *)

Lemma record_finding_Ok (vuln_id pkg_name : json) (sev : string) (acc acc' : normalized) :
  record_finding vuln_id pkg_name sev acc = Ok acc' ->
  acc' = add_finding acc {| vulnerability_id := text_of vuln_id;
                            package_name := text_of pkg_name;
                            severity_label := sev |}.
Proof.
  unfold record_finding, add_finding, qualifies, make_key, key_of; simpl.
  destruct vuln_id, pkg_name; simpl;
    repeat match goal with
    | |- context [if ?b then _ else _] => destruct b eqn:?; simpl
    end;
    intros H; rewrite ?andb_false_r in *;
    try discriminate; try (by inversion H); try congruence.
Qed.

(** *** The loops of the extractors *)

(** Iterating a str or a dict hands out strings, on which the loop body
    fails at once; so a loop that finishes has iterated a list, or
    nothing. *)
Lemma py_iter_items {S : Type} (body : json -> S -> outcome S) (x : json)
    (items : list json) (acc acc' : S) :
  (forall s a, body (JStr s) a = Raise AttributeError) ->
  py_iter x = Ok items -> for_each body items acc = Ok acc' ->
  items = items_of x.
Proof.
  intros Hbody Hiter Hloop. destruct x as [| | |s|l|ms]; simpl in *; try discriminate.
  - destruct s; inversion Hiter; subst; [reflexivity|].
    simpl in Hloop. by rewrite Hbody in Hloop.
  - by inversion Hiter.
  - destruct ms; inversion Hiter; subst; [reflexivity|].
    simpl in Hloop. by rewrite Hbody in Hloop.
Qed.

Lemma foldl_bind {A B C : Type} (f : C -> B -> C) (g : A -> list B) (l : list A) (c : C) :
  foldl f c (l ≫= g) = foldl (fun c x => foldl f c (g x)) c l.
Proof.
  revert c. induction l as [|x l IH]; intros c; [reflexivity|].
  change ((x :: l) ≫= g) with (g x ++ (l ≫= g)). by rewrite foldl_app, IH.
Qed.

Lemma foldl_add_finding (fs : list finding) (acc : normalized) :
  foldl add_finding acc fs
  = (list_to_set (key_of <$> List.filter qualifies fs) ∪ acc.1,
     foldl (fun h s => counter_add s 1 h) acc.2
       (severity_label <$> List.filter qualifies fs)).
Proof.
  revert acc. induction fs as [|f fs IH]; intros [ks h]; simpl.
  - f_equal. set_solver.
  - rewrite IH. unfold add_finding. destruct (qualifies f); simpl; [|reflexivity].
    f_equal. set_solver.
Qed.

Lemma foldl_add_finding_normalize (fs : list finding) :
  foldl add_finding empty_result fs = normalize (List.filter qualifies fs).
Proof.
  rewrite foldl_add_finding. unfold normalize, tally, empty_result; simpl.
  f_equal. set_solver.
Qed.

Lemma trivy_vuln_Ok (vuln : json) (acc acc' : normalized) :
  trivy_vuln vuln acc = Ok acc' -> acc' = add_finding acc (trivy_fields vuln).
Proof.
  unfold trivy_vuln. intros H. do 4 bind_inv H.
  apply py_get_Ok in Ha as [-> _], Ha0 as [-> _], Ha1 as [-> _].
  apply py_upper_Ok in Ha2 as [-> _].
  by apply record_finding_Ok in H.
Qed.

Lemma trivy_result_Ok (result : json) (acc acc' : normalized) :
  trivy_result result acc = Ok acc' ->
  acc' = foldl add_finding acc
           (trivy_fields <$> items_of (member_or (JArr []) "Vulnerabilities" result)).
Proof.
  unfold trivy_result. intros H. do 2 bind_inv H.
  apply py_get_Ok in Ha as [-> _].
  rewrite <- (py_iter_items trivy_vuln _ _ _ _ (fun _ _ => eq_refl) Ha0 H).
  rewrite foldl_fmap.
  revert H. apply for_each_foldl. intros x b b'. apply trivy_vuln_Ok.
Qed.

(** Whenever [extract_trivy_vulns] returns, it returns the normalised
    result of the data model. *)
Lemma extract_trivy_refines (trivy_data : json) (r : normalized) :
  extract_trivy_vulns trivy_data = Ok r ->
  r = normalize (List.filter qualifies (trivy_fields <$> trivy_findings trivy_data)).
Proof.
  unfold extract_trivy_vulns. rewrite <- foldl_add_finding_normalize.
  destruct (truthy trivy_data) eqn:Ht; simpl; intros H.
  - do 2 bind_inv H. apply py_get_Ok in Ha as [-> _].
    unfold trivy_findings.
    rewrite <- (py_iter_items trivy_result _ _ _ _ (fun _ _ => eq_refl) Ha0 H).
    rewrite foldl_fmap, foldl_bind.
    revert H. apply for_each_foldl. intros x b b' Hx.
    rewrite <- foldl_fmap. by apply trivy_result_Ok.
  - inversion H. by destruct trivy_data as [| [|] | | [|] | [|] | [|] ].
Qed.

Lemma grype_match_Ok (m : json) (acc acc' : normalized) :
  grype_match m acc = Ok acc' -> acc' = add_finding acc (grype_fields m).
Proof.
  unfold grype_match. intros H. do 7 bind_inv H.
  apply py_get_Ok in Ha as [-> _], Ha0 as [-> _], Ha1 as [-> _], Ha2 as [-> _],
    Ha3 as [-> _], Ha4 as [-> _].
  apply py_upper_Ok in Ha5 as [-> _].
  by apply record_finding_Ok in H.
Qed.

(** Whenever [extract_grype_vulns] returns, it returns the normalised
    result of the data model. *)
Lemma extract_grype_refines (grype_data : json) (r : normalized) :
  extract_grype_vulns grype_data = Ok r ->
  r = normalize (List.filter qualifies (grype_fields <$> grype_findings grype_data)).
Proof.
  unfold extract_grype_vulns. rewrite <- foldl_add_finding_normalize.
  destruct (truthy grype_data) eqn:Ht; simpl; intros H.
  - do 2 bind_inv H. apply py_get_Ok in Ha as [-> _].
    unfold grype_findings.
    rewrite <- (py_iter_items grype_match _ _ _ _ (fun _ _ => eq_refl) Ha0 H).
    rewrite foldl_fmap.
    revert H. apply for_each_foldl. intros x b b'. apply grype_match_Ok.
  - inversion H. by destruct grype_data as [| [|] | | [|] | [|] | [|] ].
Qed.

(** *** Documents on which extraction returns *)

Lemma field_is_obj (check : json -> bool) (k : string) (x : json) :
  field_is check k x = true -> exists ms, x = JObj ms.
Proof. destruct x; simpl; intros H; try discriminate. eauto. Qed.

Lemma field_is_member (check : json -> bool) (k : string) (x d : json) :
  field_is check k x = true -> check d = true -> check (member_or d k x) = true.
Proof.
  destruct x; simpl; try discriminate. destruct (lookup_member k members); auto.
Qed.

Lemma py_get_obj (ms : list (string * json)) (k : string) (d : json) :
  py_get (JObj ms) k d = Ok (member_or d k (JObj ms)).
Proof. reflexivity. Qed.

Lemma is_str_inv (v : json) : is_str v = true -> exists s, v = JStr s.
Proof. destruct v; simpl; intros H; try discriminate. eauto. Qed.

Lemma list_of_inv (check : json -> bool) (v : json) :
  list_of check v = true ->
  exists items, v = JArr items /\ Forall (fun x => check x = true) items.
Proof.
  destruct v; simpl; intros H; try discriminate.
  eexists; split; [reflexivity|]. apply Forall_forall. intros x Hx.
  rewrite forallb_forall in H. apply H. by apply list_elem_of_In.
Qed.

Lemma record_finding_str (i p sev : string) (acc : normalized) :
  returns (record_finding (JStr i) (JStr p) sev acc) = true.
Proof. unfold record_finding. simpl. by destruct (_ && _). Qed.

Lemma returns_Ok {A : Type} (m : outcome A) : returns m = true -> exists a, m = Ok a.
Proof. destruct m; simpl; intros H; try discriminate. eauto. Qed.

Lemma for_each_returns {A S : Type} (body : A -> S -> outcome S) (P : A -> Prop)
    (items : list A) :
  (forall x acc, P x -> returns (body x acc) = true) ->
  Forall P items -> forall acc, returns (for_each body items acc) = true.
Proof.
  intros Hbody. induction 1 as [|x items Hx _ IH]; intros acc; simpl; [done|].
  destruct (returns_Ok _ (Hbody x acc Hx)) as [acc' ->]. simpl. apply IH.
Qed.

Lemma trivy_vuln_returns (vuln : json) (acc : normalized) :
  trivy_vuln_typed vuln = true -> returns (trivy_vuln vuln acc) = true.
Proof.
  unfold trivy_vuln_typed, trivy_vuln. rewrite !andb_true_iff. intros [[Hi Hp] Hs].
  destruct (field_is_obj _ _ _ Hi) as [ms ->]. rewrite !py_get_obj; cbn [bind].
  destruct (is_str_inv _ (field_is_member _ _ _ (JStr "") Hi eq_refl)) as [i ->].
  destruct (is_str_inv _ (field_is_member _ _ _ (JStr "") Hp eq_refl)) as [p ->].
  destruct (is_str_inv _ (field_is_member _ _ _ (JStr "UNKNOWN") Hs eq_refl)) as [s ->].
  cbn [bind]. apply record_finding_str.
Qed.

Lemma trivy_result_returns (result : json) (acc : normalized) :
  trivy_result_typed result = true -> returns (trivy_result result acc) = true.
Proof.
  unfold trivy_result_typed, trivy_result. intros H.
  destruct (field_is_obj _ _ _ H) as [ms ->]. rewrite py_get_obj; cbn [bind].
  destruct (list_of_inv _ _ (field_is_member _ _ _ (JArr []) H eq_refl))
    as (items & -> & Hall).
  cbn [bind]. revert Hall acc. apply for_each_returns.
  intros x b. apply trivy_vuln_returns.
Qed.

Lemma extract_trivy_returns (trivy_data : json) :
  trivy_typed trivy_data = true -> returns (extract_trivy_vulns trivy_data) = true.
Proof.
  unfold trivy_typed, extract_trivy_vulns.
  destruct (truthy trivy_data); simpl; [|done]. intros H.
  destruct (field_is_obj _ _ _ H) as [ms ->]. rewrite py_get_obj; cbn [bind].
  destruct (list_of_inv _ _ (field_is_member _ _ _ (JArr []) H eq_refl))
    as (items & -> & Hall).
  cbn [bind]. generalize empty_result. revert Hall. apply for_each_returns.
  intros x b. apply trivy_result_returns.
Qed.

Lemma grype_match_returns (m : json) (acc : normalized) :
  grype_match_typed m = true -> returns (grype_match m acc) = true.
Proof.
  unfold grype_match_typed, grype_match. rewrite andb_true_iff. intros [Hv Ha].
  destruct (field_is_obj _ _ _ Hv) as [ms ->]. rewrite !py_get_obj; cbn [bind].
  pose proof (field_is_member _ _ _ (JObj []) Hv eq_refl) as Hv'.
  pose proof (field_is_member _ _ _ (JObj []) Ha eq_refl) as Ha'.
  simpl in Hv', Ha'. apply andb_true_iff in Hv' as [Hi Hs].
  destruct (field_is_obj _ _ _ Hi) as [vs Ev].
  destruct (field_is_obj _ _ _ Ha') as [ars Ea].
  simpl member_or in Ev, Ea, Hi, Hs, Ha' |- *. rewrite Ev, Ea in *.
  rewrite !py_get_obj; cbn [bind].
  destruct (is_str_inv _ (field_is_member _ _ _ (JStr "") Hi eq_refl)) as [i ->].
  destruct (is_str_inv _ (field_is_member _ _ _ (JStr "") Ha' eq_refl)) as [p ->].
  destruct (is_str_inv _ (field_is_member _ _ _ (JStr "Unknown") Hs eq_refl)) as [s ->].
  cbn [bind]. apply record_finding_str.
Qed.

Lemma extract_grype_returns (grype_data : json) :
  grype_typed grype_data = true -> returns (extract_grype_vulns grype_data) = true.
Proof.
  unfold grype_typed, extract_grype_vulns.
  destruct (truthy grype_data); simpl; [|done]. intros H.
  destruct (field_is_obj _ _ _ H) as [ms ->]. rewrite py_get_obj; cbn [bind].
  destruct (list_of_inv _ _ (field_is_member _ _ _ (JArr []) H eq_refl))
    as (items & -> & Hall).
  cbn [bind]. generalize empty_result. revert Hall. apply for_each_returns.
  intros x b. apply grype_match_returns.
Qed.

(** *** Histograms *)

Lemma hist_total_insert (s : string) (n : nat) (h : gmap string nat) :
  h !! s = None -> hist_total (<[s := n]> h) = n + hist_total h.
Proof.
  intros Hs. unfold hist_total. apply map_fold_insert_L; [|done]. intros. lia.
Qed.

Lemma hist_total_lookup (s : string) (c : nat) (h : gmap string nat) :
  h !! s = Some c -> hist_total h = c + hist_total (delete s h).
Proof.
  intros Hs. unfold hist_total.
  apply (map_fold_delete_L (fun _ c acc => c + acc)); [|done]. intros. lia.
Qed.

Lemma hist_total_counter_add (s : string) (n : nat) (h : gmap string nat) :
  hist_total (counter_add s n h) = hist_total h + n.
Proof.
  unfold counter_add. destruct (h !! s) as [c|] eqn:Hs; simpl.
  - rewrite <- insert_delete_eq, hist_total_insert by apply lookup_delete_eq.
    rewrite (hist_total_lookup s c h Hs). lia.
  - rewrite hist_total_insert by done. lia.
Qed.

Lemma hist_total_foldl (labels : list string) (h : gmap string nat) :
  hist_total (foldl (fun h s => counter_add s 1 h) h labels)
  = hist_total h + length labels.
Proof.
  revert h. induction labels as [|s labels IH]; intros h; simpl; [lia|].
  rewrite IH, hist_total_counter_add. lia.
Qed.

Lemma hist_total_tally (labels : list string) : hist_total (tally labels) = length labels.
Proof. unfold tally. rewrite hist_total_foldl. reflexivity. Qed.

Lemma lookup_foldl_counter (labels : list string) (h : gmap string nat) (s : string) :
  default 0 (foldl (fun h s => counter_add s 1 h) h labels !! s)
  = default 0 (h !! s) + length (List.filter (String.eqb s) labels).
Proof.
  revert h. induction labels as [|l labels IH]; intros h; simpl; [lia|].
  rewrite IH, lookup_counter_add. destruct (decide (l = s)) as [->|Hne].
  - rewrite String.eqb_refl. simpl. lia.
  - apply String.eqb_neq in Hne. rewrite String.eqb_sym, Hne. reflexivity.
Qed.

Lemma lookup_tally (labels : list string) (s : string) :
  default 0 (tally labels !! s) = length (List.filter (String.eqb s) labels).
Proof. unfold tally. by rewrite lookup_foldl_counter, lookup_empty. Qed.

Lemma size_list_to_set_le (ks : list finding_key) :
  size (list_to_set ks : gset finding_key) <= length ks.
Proof.
  induction ks as [|k ks IH].
  - by rewrite list_to_set_nil, size_empty.
  - rewrite list_to_set_cons, size_union_alt, size_singleton. simpl length.
    assert (list_to_set ks ∖ {[k]} ⊆ (list_to_set ks : gset finding_key)) as Hsub
      by set_solver.
    apply subseteq_size in Hsub. lia.
Qed.

Lemma normalize_size_le (fs : list finding) :
  size (normalize fs).1 <= hist_total (normalize fs).2.
Proof.
  unfold normalize; simpl. rewrite hist_total_tally, length_fmap.
  etransitivity; [apply size_list_to_set_le|]. by rewrite length_fmap.
Qed.

Lemma qualifies_key (f : finding) :
  qualifies f = true -> (key_of f).1 <> "" /\ (key_of f).2 <> "".
Proof.
  unfold qualifies, key_of; simpl. rewrite andb_true_iff, !negb_true_iff.
  by rewrite !String.eqb_neq.
Qed.

Lemma normalize_keys_nonempty (fs : list finding) (k : finding_key) :
  k ∈ (normalize (List.filter qualifies fs)).1 -> k.1 <> "" /\ k.2 <> "".
Proof.
  unfold normalize; simpl. rewrite elem_of_list_to_set, list_elem_of_fmap.
  intros (f & -> & Hf). apply list_elem_of_In, filter_In in Hf as [_ Hq].
  by apply qualifies_key.
Qed.

(** *** Single findings and repeated findings *)

Lemma record_finding_qualifying (i p sev : string) (acc : normalized) :
  i <> "" -> p <> "" ->
  record_finding (JStr i) (JStr p) sev acc
  = Ok ({[(i, p)]} ∪ acc.1, counter_add sev 1 acc.2).
Proof.
  intros Hi Hp. apply String.eqb_neq in Hi, Hp.
  unfold record_finding. simpl. by rewrite Hi, Hp.
Qed.

Lemma trivy_vuln_of_step (i p s : string) (acc : normalized) :
  i <> "" -> p <> "" ->
  trivy_vuln (trivy_vuln_of i p s) acc
  = Ok ({[(i, p)]} ∪ acc.1, counter_add (upper s) 1 acc.2).
Proof. intros Hi Hp. by apply record_finding_qualifying. Qed.

Lemma grype_match_of_step (i p s : string) (acc : normalized) :
  i <> "" -> p <> "" ->
  grype_match (grype_match_of i p s) acc
  = Ok ({[(i, p)]} ∪ acc.1, counter_add (upper s) 1 acc.2).
Proof. intros Hi Hp. by apply record_finding_qualifying. Qed.

Lemma counter_add_singleton (s : string) (c n : nat) :
  counter_add s n {[s := c]} = {[s := c + n]}.
Proof. unfold counter_add. by rewrite lookup_singleton_eq, insert_singleton_eq. Qed.

Lemma counter_add_empty (s : string) (n : nat) : counter_add s n ∅ = {[s := n]}.
Proof. unfold counter_add. by rewrite lookup_empty, insert_empty. Qed.

(** The same finding again and again: the key set stays a singleton, the
    count goes up each time. *)
Lemma for_each_repeated (body : json -> normalized -> outcome normalized) (v : json)
    (k : finding_key) (sev : string) :
  (forall acc, body v acc = Ok ({[k]} ∪ acc.1, counter_add sev 1 acc.2)) ->
  forall n c, for_each body (replicate n v) ({[k]}, {[sev := c]})
              = Ok ({[k]}, {[sev := c + n]}).
Proof.
  intros Hbody. induction n as [|n IH]; intros c; simpl.
  - by rewrite Nat.add_0_r.
  - rewrite Hbody; simpl. rewrite counter_add_singleton, union_idemp_L, IH.
    do 3 f_equal. lia.
Qed.

Lemma trivy_duplicates (n : nat) (i p s : string) :
  i <> "" -> p <> "" ->
  extract_trivy_vulns (trivy_doc (replicate (S n) (trivy_vuln_of i p s)))
  = Ok ({[(i, p)]}, {[upper s := S n]}).
Proof.
  intros Hi Hp. unfold extract_trivy_vulns, trivy_doc; simpl.
  unfold trivy_result; simpl. rewrite trivy_vuln_of_step by done. simpl.
  rewrite counter_add_empty, (right_id_L ∅ (∪)).
  rewrite (for_each_repeated trivy_vuln _ (i, p) (upper s)); [done|].
  intros acc. by apply trivy_vuln_of_step.
Qed.

Lemma grype_duplicates (n : nat) (i p s : string) :
  i <> "" -> p <> "" ->
  extract_grype_vulns (grype_doc (replicate (S n) (grype_match_of i p s)))
  = Ok ({[(i, p)]}, {[upper s := S n]}).
Proof.
  intros Hi Hp. unfold extract_grype_vulns, grype_doc; simpl.
  rewrite grype_match_of_step by done. simpl.
  rewrite counter_add_empty, (right_id_L ∅ (∪)).
  rewrite (for_each_repeated grype_match _ (i, p) (upper s)); [done|].
  intros acc. by apply grype_match_of_step.
Qed.

(** ** The extractors: claims *)


(** C5. Whatever either extractor returns is built from the qualifying
    findings alone: a finding whose id or package name is empty or
    absent is filtered out before the key set and the histogram are
    formed, every returned key has two non-empty components, and the
    loop body leaves both the key set and the histogram as they were on
    such a finding. *)
Theorem empty_id_or_package_dropped (trivy_data grype_data : json) (rt rg : normalized) :
  extract_trivy_vulns trivy_data = Ok rt ->
  extract_grype_vulns grype_data = Ok rg ->
  rt = normalize (List.filter qualifies (trivy_fields <$> trivy_findings trivy_data))
  /\ rg = normalize (List.filter qualifies (grype_fields <$> grype_findings grype_data))
  /\ (forall k, k ∈ rt.1 ∪ rg.1 -> k.1 <> "" /\ k.2 <> "")
  /\ (forall vuln acc acc',
        vulnerability_id (trivy_fields vuln) = "" \/ package_name (trivy_fields vuln) = "" ->
        trivy_vuln vuln acc = Ok acc' -> acc' = acc)
  /\ (forall m acc acc',
        vulnerability_id (grype_fields m) = "" \/ package_name (grype_fields m) = "" ->
        grype_match m acc = Ok acc' -> acc' = acc).
Proof.
  intros Ht Hg.
  pose proof (extract_trivy_refines _ _ Ht) as Et.
  pose proof (extract_grype_refines _ _ Hg) as Eg.
  split; [done|]. split; [done|]. split; [|split].
  - intros k [Hk|Hk]%elem_of_union; subst; by eapply normalize_keys_nonempty.
  - intros vuln acc acc' Hd Hv. apply trivy_vuln_Ok in Hv. subst.
    unfold add_finding, qualifies. by destruct Hd as [-> | ->]; rewrite ?andb_false_r.
  - intros m acc acc' Hd Hm. apply grype_match_Ok in Hm. subst.
    unfold add_finding, qualifies. by destruct Hd as [-> | ->]; rewrite ?andb_false_r.
Qed.

(** C6. The histogram counts qualifying findings one by one, the key
    set keeps one key however often it occurs: for whatever either
    extractor returns, the counts add up to the number of qualifying raw
    findings, each label's count is the number of qualifying findings
    with that label, the key set is the set of their keys, and so the
    counts add up to at least the size of the key set; a finding
    repeated n+1 times gives one key and a count of n+1. *)
Theorem histogram_counts_every_occurrence (trivy_data grype_data : json)
    (rt rg : normalized) :
  extract_trivy_vulns trivy_data = Ok rt ->
  extract_grype_vulns grype_data = Ok rg ->
  let ft := List.filter qualifies (trivy_fields <$> trivy_findings trivy_data) in
  let fg := List.filter qualifies (grype_fields <$> grype_findings grype_data) in
  (hist_total rt.2 = length ft /\ hist_total rg.2 = length fg)
  /\ (forall s, default 0 (rt.2 !! s)
                = length (List.filter (String.eqb s) (severity_label <$> ft)))
  /\ (forall s, default 0 (rg.2 !! s)
                = length (List.filter (String.eqb s) (severity_label <$> fg)))
  /\ (rt.1 = list_to_set (key_of <$> ft) /\ rg.1 = list_to_set (key_of <$> fg))
  /\ (size rt.1 <= hist_total rt.2 /\ size rg.1 <= hist_total rg.2)
  /\ (forall n i p s, i <> "" -> p <> "" ->
        extract_trivy_vulns (trivy_doc (replicate (S n) (trivy_vuln_of i p s)))
          = Ok ({[(i, p)]}, {[upper s := S n]})
        /\ extract_grype_vulns (grype_doc (replicate (S n) (grype_match_of i p s)))
          = Ok ({[(i, p)]}, {[upper s := S n]})).
Proof.
  intros Ht Hg ft fg.
  rewrite (extract_trivy_refines _ _ Ht), (extract_grype_refines _ _ Hg).
  fold ft fg. unfold normalize; cbn [fst snd].
  rewrite !hist_total_tally, !length_fmap.
  split; [done|]. split; [apply lookup_tally|]. split; [apply lookup_tally|].
  split; [done|]. split.
  - split; (etransitivity; [apply size_list_to_set_le|]); by rewrite length_fmap.
  - intros n i p s Hi Hp. split; [by apply trivy_duplicates | by apply grype_duplicates].
Qed.

(** *** Severity labels *)

Lemma upper_ascii_code (a : ascii) :
  upper_ascii a
  = ascii_of_nat (let n := nat_of_ascii a in if is_lower_code n then n - 32 else n).
Proof.
  unfold upper_ascii, is_lower_code. cbv zeta.
  destruct (_ && _); [reflexivity | by rewrite ascii_nat_embedding].
Qed.

Lemma same_letter_upper (a b : ascii) :
  same_letter a b = true -> upper_ascii a = upper_ascii b.
Proof.
  rewrite !upper_ascii_code. unfold same_letter, is_lower_code. cbv zeta.
  generalize (nat_of_ascii a) (nat_of_ascii b). intros x y H. f_equal.
  destruct (Nat.leb_spec 97 x), (Nat.leb_spec x 122), (Nat.leb_spec 97 y),
    (Nat.leb_spec y 122); simpl in *;
    rewrite ?orb_false_r, ?orb_true_iff, ?Nat.eqb_eq in H; lia.
Qed.

Lemma same_letter_ascii (a b : ascii) :
  same_letter a b = true ->
  (nat_of_ascii a <? 128)%nat = true -> (nat_of_ascii b <? 128)%nat = true.
Proof.
  unfold same_letter, is_lower_code. cbv zeta.
  generalize (nat_of_ascii a) (nat_of_ascii b). intros x y H Hx.
  apply Nat.ltb_lt in Hx. apply Nat.ltb_lt.
  destruct (Nat.leb_spec 97 x), (Nat.leb_spec x 122), (Nat.leb_spec 97 y),
    (Nat.leb_spec y 122); simpl in *;
    rewrite ?orb_false_r, ?orb_true_iff, ?Nat.eqb_eq in H; lia.
Qed.

Lemma equal_ignoring_case_ascii (s t : string) :
  equal_ignoring_case s t = true -> is_ascii s = true -> is_ascii t = true.
Proof.
  revert t. induction s as [|a s IH]; intros [|b t]; simpl; try done.
  rewrite !andb_true_iff. intros [Hab Hst] [Ha Hs].
  split; [by apply (same_letter_ascii a b) | by apply IH].
Qed.

Lemma equal_ignoring_case_ascii_upper (s t : string) :
  equal_ignoring_case s t = true -> ascii_upper s = ascii_upper t.
Proof.
  revert t. induction s as [|a s IH]; intros [|b t]; simpl; try done.
  rewrite andb_true_iff. intros [Hab Hst].
  by rewrite (same_letter_upper _ _ Hab), (IH _ Hst).
Qed.

Lemma equal_ignoring_case_upper (s t : string) :
  is_ascii s = true -> equal_ignoring_case s t = true -> upper s = upper t.
Proof.
  intros Hs Hst. unfold upper.
  rewrite Hs, (equal_ignoring_case_ascii s t Hst Hs).
  by apply equal_ignoring_case_ascii_upper.
Qed.

Lemma lookup_member_app_last (k' k : string) (v : json) (ms : list (string * json)) :
  lookup_member k' (ms ++ [(k, v)])
  = if String.eqb k' k then Some v else lookup_member k' ms.
Proof.
  induction ms as [|[k0 v0] ms IH]; simpl.
  - reflexivity.
  - rewrite IH. by destruct (String.eqb k' k).
Qed.

Lemma for_each_replace {A S : Type} (body : A -> S -> outcome S) (x y : A)
    (l1 l2 : list A) (acc : S) :
  (forall a, body x a = body y a) ->
  for_each body (l1 ++ x :: l2) acc = for_each body (l1 ++ y :: l2) acc.
Proof.
  intros H. rewrite !for_each_app.
  destruct (for_each body l1 acc) as [a| |]; simpl; [|reflexivity..].
  by rewrite H.
Qed.

Lemma trivy_vuln_severity_case (s t : string) (ms : list (string * json))
    (acc : normalized) :
  upper s = upper t ->
  trivy_vuln (JObj (ms ++ [("Severity", JStr s)])) acc
  = trivy_vuln (JObj (ms ++ [("Severity", JStr t)])) acc.
Proof.
  intros H. unfold trivy_vuln, py_get. rewrite !lookup_member_app_last.
  simpl. by rewrite H.
Qed.

Lemma grype_match_severity_case (s t : string) (ms vs : list (string * json))
    (acc : normalized) :
  upper s = upper t ->
  grype_match (JObj (ms ++ [("vulnerability", JObj (vs ++ [("severity", JStr s)]))])) acc
  = grype_match (JObj (ms ++ [("vulnerability", JObj (vs ++ [("severity", JStr t)]))])) acc.
Proof.
  intros H. unfold grype_match, py_get. rewrite !lookup_member_app_last.
  cbn [String.eqb Ascii.eqb Bool.eqb bind]. rewrite !lookup_member_app_last.
  simpl. by rewrite H.
Qed.

(** C7, as the code has it.  Both extractors upper-case the severity
    label before counting: a qualifying finding with any label is
    counted under the upper-cased label.  For ASCII labels this makes
    the count blind to case: for two labels of ASCII characters that
    differ at most in the case of their letters, upper-casing gives one
    label, the loop body of either extractor does the same with a
    finding carrying the one or the other, whole documents that differ
    in this one label extract alike, and a qualifying finding is counted
    under that one upper-cased label; "high", "High" and "HIGH" all go
    to "HIGH". *)
Theorem severity_case_insensitive (s t : string) :
  is_ascii s = true ->
  equal_ignoring_case s t = true ->
  upper s = upper t
  /\ (forall ms acc,
        trivy_vuln (JObj (ms ++ [("Severity", JStr s)])) acc
        = trivy_vuln (JObj (ms ++ [("Severity", JStr t)])) acc)
  /\ (forall ms vs acc,
        grype_match (JObj (ms ++ [("vulnerability", JObj (vs ++ [("severity", JStr s)]))])) acc
        = grype_match (JObj (ms ++ [("vulnerability", JObj (vs ++ [("severity", JStr t)]))])) acc)
  /\ (forall before after i p,
        extract_trivy_vulns (trivy_doc (before ++ trivy_vuln_of i p s :: after))
        = extract_trivy_vulns (trivy_doc (before ++ trivy_vuln_of i p t :: after)))
  /\ (forall before after i p,
        extract_grype_vulns (grype_doc (before ++ grype_match_of i p s :: after))
        = extract_grype_vulns (grype_doc (before ++ grype_match_of i p t :: after)))
  /\ (forall i p, i <> "" -> p <> "" ->
        extract_trivy_vulns (trivy_doc [trivy_vuln_of i p s])
          = Ok ({[(i, p)]}, {[upper t := 1]})
        /\ extract_grype_vulns (grype_doc [grype_match_of i p s])
          = Ok ({[(i, p)]}, {[upper t := 1]}))
  /\ (upper "high" = "HIGH" /\ upper "High" = "HIGH" /\ upper "HIGH" = "HIGH")
  /\ (forall label i p, i <> "" -> p <> "" ->
        extract_trivy_vulns (trivy_doc [trivy_vuln_of i p label])
          = Ok ({[(i, p)]}, {[upper label := 1]})
        /\ extract_grype_vulns (grype_doc [grype_match_of i p label])
          = Ok ({[(i, p)]}, {[upper label := 1]})).
Proof.
  intros Hs Hst. pose proof (equal_ignoring_case_upper s t Hs Hst) as Hup.
  split; [done|].
  split; [intros; by apply trivy_vuln_severity_case|].
  split; [intros; by apply grype_match_severity_case|].
  split; [|split; [|split; [|split]]].
  - intros before after i p. unfold extract_trivy_vulns, trivy_doc; simpl.
    unfold trivy_result; simpl. f_equal. apply for_each_replace. intros a.
    by apply (trivy_vuln_severity_case s t
      [("VulnerabilityID", JStr i); ("PkgName", JStr p)]).
  - intros before after i p. unfold extract_grype_vulns, grype_doc; simpl.
    apply for_each_replace. intros a. unfold grype_match_of.
    unfold grype_match; simpl. by rewrite Hup.
  - intros i p Hi Hp. rewrite <- Hup.
    split; [apply (trivy_duplicates 0) | apply (grype_duplicates 0)]; done.
  - repeat split; reflexivity.
  - intros label i p Hi Hp.
    split; [apply (trivy_duplicates 0) | apply (grype_duplicates 0)]; done.
Qed.

(** C9. A finding without severity is counted under "UNKNOWN" by both
    extractors, although Trivy's default is written "UNKNOWN" and
    Grype's "Unknown": for a Trivy finding with id and package name but
    no Severity, and a Grype match with id and name but no severity, the
    loop bodies add one to the count of "UNKNOWN", and documents holding
    just that finding extract to the same one-bucket histogram. *)
Theorem missing_severity_same_bucket (i p : string)
    (tm gm vs ars : list (string * json)) (acc : normalized) :
  i <> "" -> p <> "" ->
  lookup_member "VulnerabilityID" tm = Some (JStr i) ->
  lookup_member "PkgName" tm = Some (JStr p) ->
  lookup_member "Severity" tm = None ->
  lookup_member "vulnerability" gm = Some (JObj vs) ->
  lookup_member "id" vs = Some (JStr i) ->
  lookup_member "severity" vs = None ->
  lookup_member "artifact" gm = Some (JObj ars) ->
  lookup_member "name" ars = Some (JStr p) ->
  trivy_vuln (JObj tm) acc = Ok ({[(i, p)]} ∪ acc.1, counter_add "UNKNOWN" 1 acc.2)
  /\ grype_match (JObj gm) acc = Ok ({[(i, p)]} ∪ acc.1, counter_add "UNKNOWN" 1 acc.2)
  /\ extract_trivy_vulns (trivy_doc [JObj tm]) = Ok ({[(i, p)]}, {["UNKNOWN" := 1]})
  /\ extract_grype_vulns (grype_doc [JObj gm]) = Ok ({[(i, p)]}, {["UNKNOWN" := 1]}).
Proof.
  intros Hi Hp Ht1 Ht2 Ht3 Hg1 Hg2 Hg3 Hg4 Hg5.
  assert (forall a, trivy_vuln (JObj tm) a
                    = Ok ({[(i, p)]} ∪ a.1, counter_add "UNKNOWN" 1 a.2)) as Ht.
  { intros a. unfold trivy_vuln, py_get. rewrite Ht1, Ht2, Ht3. cbn [bind py_upper].
    by apply record_finding_qualifying. }
  assert (forall a, grype_match (JObj gm) a
                    = Ok ({[(i, p)]} ∪ a.1, counter_add "UNKNOWN" 1 a.2)) as Hg.
  { intros a. unfold grype_match, py_get. rewrite Hg1, Hg4. cbn [bind].
    rewrite Hg2, Hg3, Hg5. cbn [bind py_upper].
    by apply record_finding_qualifying. }
  split; [apply Ht|]. split; [apply Hg|]. split.
  - unfold extract_trivy_vulns, trivy_doc; simpl. unfold trivy_result; simpl.
    rewrite Ht. simpl. by rewrite counter_add_empty, (right_id_L ∅ (∪)).
  - unfold extract_grype_vulns, grype_doc; simpl.
    rewrite Hg. simpl. by rewrite counter_add_empty, (right_id_L ∅ (∪)).
Qed.

(** ** The adapters and scan_all *)

Section ScanningFacts.

Variable subprocess_run : list string -> run_result.
Variable json_loads : string -> loads_result.

Lemma read_output_Completed (returncode : Z) (stdout stderr : string) :
  (stdout = "" \/ json_loads stdout = JSONDecodeError ->
   read_output json_loads (Completed returncode stdout stderr) = Ok (JObj []))
  /\ (forall data, stdout <> "" -> json_loads stdout = Parsed data ->
      read_output json_loads (Completed returncode stdout stderr) = Ok data)
  /\ (forall e, stdout <> "" -> json_loads stdout = LoadsRaises e ->
      read_output json_loads (Completed returncode stdout stderr) = Raise e).
Proof.
  unfold read_output; simpl. split; [|split].
  - intros [-> | ->]; [done|]. by destruct (String.eqb stdout "").
  - intros data Hne ->. apply String.eqb_neq in Hne. by rewrite Hne.
  - intros e Hne ->. apply String.eqb_neq in Hne. by rewrite Hne.
Qed.

Lemma scan_image_Ok (img : string) (done done' : list image_comparison) :
  scan_image subprocess_run json_loads img done = Ok done' ->
  exists r, done' = done ++ [r] /\ image r = img.
Proof.
  unfold scan_image. intros H. do 4 bind_inv H. inversion H. eauto.
Qed.

Lemma scan_loop_Ok (imgs : list string) (done done' : list image_comparison) :
  for_each (scan_image subprocess_run json_loads) imgs done = Ok done' ->
  exists new, done' = done ++ new /\ image <$> new = imgs.
Proof.
  revert done. induction imgs as [|img imgs IH]; intros done H; simpl in H.
  - inversion H. exists []. by rewrite app_nil_r.
  - bind_inv H. apply scan_image_Ok in Ha as (r & -> & Hr).
    apply IH in H as (new & -> & Hn). exists (r :: new).
    split; [by rewrite <- app_assoc | by rewrite fmap_cons, Hr, Hn].
Qed.

Lemma scan_image_returns (img : string) (done : list image_comparison) :
  scan_typed subprocess_run json_loads img = true ->
  returns (scan_image subprocess_run json_loads img done) = true.
Proof.
  unfold scan_typed, scan_image.
  destruct (scan_with_trivy _ _ img) as [td| |]; try discriminate.
  destruct (scan_with_grype _ _ img) as [gd| |]; try discriminate.
  rewrite andb_true_iff. intros [Ht Hg]. cbn [bind].
  destruct (returns_Ok _ (extract_trivy_returns _ Ht)) as [rt ->].
  destruct (returns_Ok _ (extract_grype_returns _ Hg)) as [rg ->].
  reflexivity.
Qed.

Lemma scan_all_returns (self : scanner) :
  forallb (scan_typed subprocess_run json_loads) (images self) = true ->
  returns (scan_all subprocess_run json_loads self) = true.
Proof.
  intros H. unfold scan_all.
  assert (returns (for_each (scan_image subprocess_run json_loads)
                     (images self) (results self)) = true) as Hr.
  { apply (for_each_returns _ (fun img => scan_typed subprocess_run json_loads img = true)).
    - intros img done. apply scan_image_returns.
    - apply Forall_forall. intros img Hi. rewrite forallb_forall in H.
      apply H. by apply list_elem_of_In. }
  by destruct (returns_Ok _ Hr) as [done' ->].
Qed.

Lemma scan_all_Ok (self self' : scanner) :
  scan_all subprocess_run json_loads self = Ok self' ->
  images self' = images self
  /\ exists new, results self' = results self ++ new /\ image <$> new = images self.
Proof.
  unfold scan_all. intros H. bind_inv H. inversion H; simpl.
  split; [reflexivity|]. by apply scan_loop_Ok.
Qed.

End ScanningFacts.

(** C4, as the code has it.  Whenever [subprocess.run] hands back a
    finished process, whatever its exit status, either adapter returns
    [{}], without raising, when standard output is empty or when
    [json.loads] rejects it with [json.JSONDecodeError], and returns the
    parsed document when [json.loads] returns one. *)
Theorem adapters_degrade_to_empty (subprocess_run : list string -> run_result)
    (json_loads : string -> loads_result) (image : string) :
  (forall rc out err,
     subprocess_run ["trivy"; "image"; "--format"; "json"; "--quiet"; image]
       = Completed rc out err ->
     (out = "" \/ json_loads out = JSONDecodeError ->
      scan_with_trivy subprocess_run json_loads image = Ok (JObj []))
     /\ (forall data, out <> "" -> json_loads out = Parsed data ->
         scan_with_trivy subprocess_run json_loads image = Ok data))
  /\ (forall rc out err,
     subprocess_run ["grype"; image; "-o"; "json"; "-q"] = Completed rc out err ->
     (out = "" \/ json_loads out = JSONDecodeError ->
      scan_with_grype subprocess_run json_loads image = Ok (JObj []))
     /\ (forall data, out <> "" -> json_loads out = Parsed data ->
         scan_with_grype subprocess_run json_loads image = Ok data)).
Proof.
  unfold scan_with_trivy, scan_with_grype.
  split; intros rc out err ->;
    destruct (read_output_Completed json_loads rc out err) as (E & D & _);
    by split.
Qed.

(** C10. [scan_all] appends exactly one comparison record per image, in
    input order; so on a fresh scanner object, once [scan_all] has
    returned, the report lists the images in input order, as many
    records as images, and [images_scanned] is the length of
    [per_image].  It does return whenever, for every image, both
    processes finish and hand on typed documents, an image whose scans
    degraded to [{}] included. *)
Theorem scan_all_one_record_per_image (subprocess_run : list string -> run_result)
    (json_loads : string -> loads_result) (imgs : list string) :
  (forall self self', scan_all subprocess_run json_loads self = Ok self' ->
     exists new, results self' = results self ++ new
                 /\ image <$> new = images self /\ length new = length (images self))
  /\ (forall self', scan_all subprocess_run json_loads (init imgs) = Ok self' ->
        image <$> per_image (generate_report self') = imgs
        /\ length (per_image (generate_report self')) = length imgs
        /\ images_scanned (report_summary (generate_report self'))
           = length (per_image (generate_report self')))
  /\ (forallb (scan_typed subprocess_run json_loads) imgs = true ->
      returns (scan_all subprocess_run json_loads (init imgs)) = true).
Proof.
  split; [|split].
  - intros self self' H. apply scan_all_Ok in H as (_ & new & Hr & Hn).
    exists new. repeat split; try done. by rewrite <- Hn, length_fmap.
  - intros self' H. apply scan_all_Ok in H as (Hi & new & Hr & Hn).
    simpl in *. rewrite Hr, Hi. simpl. rewrite <- Hn at 2 3. rewrite !length_fmap.
    by repeat split.
  - intros H. by apply scan_all_returns.
Qed.


(** * Further properties of the code *)

(** ** compare_results *)

Lemma sorted_elements_NoDup (X : gset finding_key) : NoDup (sorted (elements X)).
Proof. rewrite sorted_Permutation. apply NoDup_elements. Qed.

Lemma size_split (A B : gset finding_key) : size A = size (A ∩ B) + size (A ∖ B).
Proof.
  rewrite <- size_union by set_solver. f_equal.
  apply set_eq. intros k. rewrite elem_of_union, elem_of_intersection, elem_of_difference.
  destruct (decide (k ∈ B)); tauto.
Qed.

Lemma difference_empty_subseteq (A B : gset finding_key) : A ∖ B = ∅ <-> A ⊆ B.
Proof.
  split.
  - intros H k Hk. destruct (decide (k ∈ B)) as [|Hn]; [done|].
    assert (k ∈ A ∖ B) as Hd by set_solver. rewrite H in Hd. set_solver.
  - intros H. set_solver.
Qed.

(** The counts of a comparison record are the lengths of its detail
    lists, and no detail list names a finding twice. *)
Theorem compare_results_counts_are_lengths (img : string) (A B : gset finding_key)
    (sa sb : gmap string nat) :
  let r := compare_results img A B sa sb in
  (length (only_trivy (details r)) = only_trivy_count (comparison r)
   /\ length (only_grype (details r)) = only_grype_count (comparison r)
   /\ length (common (details r)) = common_count (comparison r))
  /\ NoDup (only_trivy (details r)) /\ NoDup (only_grype (details r))
  /\ NoDup (common (details r)).
Proof.
  cbv zeta. unfold compare_results.
  cbn [details comparison only_trivy only_grype common only_trivy_count
       only_grype_count common_count].
  rewrite !length_sorted_elements.
  repeat split; apply sorted_elements_NoDup.
Qed.

(** Each scanner's total in a comparison record is the number of common
    findings plus the number of findings only that scanner has. *)
Theorem compare_results_totals_split (img : string) (A B : gset finding_key)
    (sa sb : gmap string nat) :
  let r := compare_results img A B sa sb in
  total (trivy r) = common_count (comparison r) + only_trivy_count (comparison r)
  /\ total (grype r) = common_count (comparison r) + only_grype_count (comparison r).
Proof.
  cbv zeta. unfold compare_results.
  cbn [trivy grype total comparison only_trivy_count only_grype_count common_count].
  split; [apply size_split|].
  rewrite (size_split B A). do 2 f_equal. set_solver.
Qed.

(** The two scanners found the same keys exactly when both "only" counts
    of the record are zero, and exactly when both "only" lists are
    empty. *)
Theorem compare_results_agreement (img : string) (A B : gset finding_key)
    (sa sb : gmap string nat) :
  let r := compare_results img A B sa sb in
  (only_trivy_count (comparison r) = 0 /\ only_grype_count (comparison r) = 0 <-> A = B)
  /\ (only_trivy (details r) = [] /\ only_grype (details r) = [] <-> A = B).
Proof.
  cbv zeta. unfold compare_results.
  cbn [details comparison only_trivy only_grype only_trivy_count only_grype_count].
  assert (size (A ∖ B) = 0 /\ size (B ∖ A) = 0 <-> A = B) as Hsize.
  { rewrite !size_empty_iff, !leibniz_equiv_iff, !difference_empty_subseteq.
    split; [intros [? ?]; by apply (anti_symm (⊆)) | by intros ->]. }
  split; [exact Hsize|].
  rewrite <- Hsize, <- !length_sorted_elements.
  split; intros [H1 H2].
  - by rewrite H1, H2.
  - split; by apply length_zero_iff_nil.
Qed.

(** Swapping the two scanners swaps the two "only" lists and counts and
    keeps the common part. *)
Theorem compare_results_swap (img : string) (A B : gset finding_key)
    (sa sb : gmap string nat) :
  let r := compare_results img A B sa sb in
  let r' := compare_results img B A sb sa in
  only_trivy (details r') = only_grype (details r)
  /\ only_grype (details r') = only_trivy (details r)
  /\ common (details r') = common (details r)
  /\ common_count (comparison r') = common_count (comparison r)
  /\ trivy r' = grype r /\ grype r' = trivy r.
Proof.
  cbv zeta. unfold compare_results.
  cbn [details comparison only_trivy only_grype common common_count trivy grype].
  assert (B ∩ A = A ∩ B) as -> by set_solver.
  by repeat split.
Qed.

(** When one scanner reports nothing, nothing is common and every
    finding of the other is listed as found by that one only. *)
Theorem compare_results_one_side_empty (img : string) (X : gset finding_key)
    (sa sb : gmap string nat) :
  let r := compare_results img ∅ X sa sb in
  let r' := compare_results img X ∅ sa sb in
  (only_trivy (details r) = [] /\ common (details r) = []
   /\ only_grype (details r) = sorted (elements X)
   /\ only_grype_count (comparison r) = total (grype r))
  /\ (only_grype (details r') = [] /\ common (details r') = []
      /\ only_trivy (details r') = sorted (elements X)
      /\ only_trivy_count (comparison r') = total (trivy r')).
Proof.
  cbv zeta. unfold compare_results.
  cbn [details comparison only_trivy only_grype common only_trivy_count
       only_grype_count trivy grype total].
  assert ((∅ : gset finding_key) ∖ X = ∅) as -> by set_solver.
  assert ((∅ : gset finding_key) ∩ X = ∅) as -> by set_solver.
  assert (X ∩ ∅ = (∅ : gset finding_key)) as -> by set_solver.
  assert (X ∖ ∅ = X) as -> by set_solver.
  rewrite elements_empty. by repeat split.
Qed.

(** ** generate_report *)

Lemma counter_get_add_counts (d total : gmap string nat) (k : string) :
  counter_get (add_counts d total) k = counter_get total k + counter_get d k.
Proof.
  unfold counter_get. rewrite lookup_add_counts.
  destruct (d !! k); simpl; lia.
Qed.

Lemma is_Some_add_counts (d total : gmap string nat) (k : string) :
  is_Some (add_counts d total !! k) <-> is_Some (total !! k) \/ is_Some (d !! k).
Proof.
  rewrite lookup_add_counts. destruct (d !! k) as [c|]; split.
  - intros _. right. eauto.
  - intros _. eauto.
  - intros H. by left.
  - intros [H|[c H]]; [done | discriminate].
Qed.

Lemma foldl_accumulate_sums (rs : list image_comparison) (t : totals) :
  let t' := foldl accumulate t rs in
  total_trivy t' = total_trivy t + sum_list_with (fun r => total (trivy r)) rs
  /\ total_grype t' = total_grype t + sum_list_with (fun r => total (grype r)) rs
  /\ total_common t'
     = total_common t + sum_list_with (fun r => common_count (comparison r)) rs
  /\ total_only_trivy t'
     = total_only_trivy t + sum_list_with (fun r => only_trivy_count (comparison r)) rs
  /\ total_only_grype t'
     = total_only_grype t + sum_list_with (fun r => only_grype_count (comparison r)) rs
  /\ (forall label, counter_get (total_trivy_severity t') label
        = counter_get (total_trivy_severity t) label
          + sum_list_with (fun r => counter_get (severity (trivy r)) label) rs)
  /\ (forall label, counter_get (total_grype_severity t') label
        = counter_get (total_grype_severity t) label
          + sum_list_with (fun r => counter_get (severity (grype r)) label) rs).
Proof.
  revert t. induction rs as [|r rs IH]; intros t; cbv zeta.
  - simpl. repeat split; intros; lia.
  - cbn [foldl sum_list_with].
    destruct (IH (accumulate t r)) as (H1 & H2 & H3 & H4 & H5 & H6 & H7).
    rewrite H1, H2, H3, H4, H5. cbn [accumulate total_trivy total_grype total_common
      total_only_trivy total_only_grype].
    repeat split; try lia; intros label.
    + rewrite H6. cbn [accumulate total_trivy_severity].
      rewrite counter_get_add_counts. lia.
    + rewrite H7. cbn [accumulate total_grype_severity].
      rewrite counter_get_add_counts. lia.
Qed.

Lemma foldl_accumulate_labels (rs : list image_comparison) (t : totals) (label : string) :
  let t' := foldl accumulate t rs in
  (is_Some (total_trivy_severity t' !! label) <->
     is_Some (total_trivy_severity t !! label)
     \/ exists r, r ∈ rs /\ is_Some (severity (trivy r) !! label))
  /\ (is_Some (total_grype_severity t' !! label) <->
     is_Some (total_grype_severity t !! label)
     \/ exists r, r ∈ rs /\ is_Some (severity (grype r) !! label)).
Proof.
  revert t. induction rs as [|r rs IH]; intros t; cbv zeta.
  - simpl. split; (split; [by left | intros [H|(r & Hr & _)]; [done|]]);
      by apply elem_of_nil in Hr.
  - cbn [foldl]. destruct (IH (accumulate t r)) as [Ht Hg]. rewrite Ht, Hg.
    cbn [accumulate total_trivy_severity total_grype_severity].
    rewrite !is_Some_add_counts. split; split.
    + intros [[H|H]|(r' & Hr' & H)]; [by left| |]; right.
      * exists r. split; [left|done].
      * exists r'. split; [by right|done].
    + intros [H|(r' & Hr' & H)]; [by left; left|].
      apply elem_of_cons in Hr' as [->|Hr']; [by left; right|].
      right. eauto.
    + intros [[H|H]|(r' & Hr' & H)]; [by left| |]; right.
      * exists r. split; [left|done].
      * exists r'. split; [by right|done].
    + intros [H|(r' & Hr' & H)]; [by left; left|].
      apply elem_of_cons in Hr' as [->|Hr']; [by left; right|].
      right. eauto.
Qed.

(** Every total of the summary is the sum, over the per-image records,
    of the corresponding per-image number; each severity count of the
    summary is the sum of the per-image counts of that label, a record
    without the label adding zero. *)
Theorem generate_report_totals_are_sums (self : scanner) :
  let s := report_summary (generate_report self) in
  let rs := results self in
  total_findings (trivy_summary s) = sum_list_with (fun r => total (trivy r)) rs
  /\ total_findings (grype_summary s) = sum_list_with (fun r => total (grype r)) rs
  /\ common_findings (comparison_totals s)
     = sum_list_with (fun r => common_count (comparison r)) rs
  /\ only_trivy_findings (comparison_totals s)
     = sum_list_with (fun r => only_trivy_count (comparison r)) rs
  /\ only_grype_findings (comparison_totals s)
     = sum_list_with (fun r => only_grype_count (comparison r)) rs
  /\ (forall label, counter_get (severity_totals (trivy_summary s)) label
        = sum_list_with (fun r => counter_get (severity (trivy r)) label) rs)
  /\ (forall label, counter_get (severity_totals (grype_summary s)) label
        = sum_list_with (fun r => counter_get (severity (grype r)) label) rs).
Proof.
  cbv zeta. unfold generate_report.
  cbn [report_summary trivy_summary grype_summary comparison_totals total_findings
       severity_totals common_findings only_trivy_findings only_grype_findings].
  destruct (foldl_accumulate_sums (results self) zero_totals)
    as (H1 & H2 & H3 & H4 & H5 & H6 & H7).
  rewrite H1, H2, H3, H4, H5. repeat split; try reflexivity; intros label.
  - by rewrite H6.
  - by rewrite H7.
Qed.

(** A severity label is a key of a summary histogram exactly when it is
    a key of that scanner's histogram in at least one per-image
    record. *)
Theorem generate_report_labels (self : scanner) (label : string) :
  let s := report_summary (generate_report self) in
  (is_Some (severity_totals (trivy_summary s) !! label) <->
     exists r, r ∈ results self /\ is_Some (severity (trivy r) !! label))
  /\ (is_Some (severity_totals (grype_summary s) !! label) <->
     exists r, r ∈ results self /\ is_Some (severity (grype r) !! label)).
Proof.
  cbv zeta. unfold generate_report.
  cbn [report_summary trivy_summary grype_summary severity_totals].
  destruct (foldl_accumulate_labels (results self) zero_totals label) as [Ht Hg].
  rewrite Ht, Hg. cbn [zero_totals total_trivy_severity total_grype_severity].
  rewrite lookup_empty.
  split; (split; [intros [[x Hx]|H]; [discriminate|done] | by right]).
Qed.

(** ** The extractors *)

Lemma lookup_foldl_counter_exact (labels : list string) (h : gmap string nat) (s : string) :
  foldl (fun h s => counter_add s 1 h) h labels !! s
  = match length (List.filter (String.eqb s) labels) with
    | 0 => h !! s
    | S c => Some (default 0 (h !! s) + S c)
    end.
Proof.
  revert h. induction labels as [|l labels IH]; intros h; simpl; [reflexivity|].
  rewrite IH, lookup_counter_add. destruct (decide (l = s)) as [->|Hne].
  - rewrite String.eqb_refl. simpl.
    destruct (length (List.filter (String.eqb s) labels)); simpl; f_equal; lia.
  - apply String.eqb_neq in Hne. rewrite String.eqb_sym, Hne. reflexivity.
Qed.


Lemma foldl_counter_add_counts (labels : list string) (h : gmap string nat) :
  foldl (fun h s => counter_add s 1 h) h labels = add_counts (tally labels) h.
Proof.
  apply map_eq. intros s. rewrite lookup_add_counts. unfold tally.
  rewrite !lookup_foldl_counter_exact, lookup_empty.
  by destruct (length (List.filter (String.eqb s) labels)).
Qed.

(** *** Loop steps that do not depend on the accumulator *)

Lemma record_finding_any (i p : json) (sev : string) (acc acc' acc2 : normalized) :
  record_finding i p sev acc = Ok acc' ->
  record_finding i p sev acc2
  = Ok (add_finding acc2 {| vulnerability_id := text_of i; package_name := text_of p;
                            severity_label := sev |}).
Proof.
  intros H.
  assert (exists r, record_finding i p sev acc2 = Ok r) as [r Hr].
  { unfold record_finding in *. destruct (truthy i && truthy p); [|eauto].
    destruct (make_key i p); simpl in *; try discriminate. eauto. }
  rewrite Hr. f_equal. by apply record_finding_Ok.
Qed.

Lemma trivy_vuln_any (vuln : json) (acc acc' acc2 : normalized) :
  trivy_vuln vuln acc = Ok acc' ->
  trivy_vuln vuln acc2 = Ok (add_finding acc2 (trivy_fields vuln)).
Proof.
  unfold trivy_vuln. intros H. do 4 bind_inv H.
  rewrite Ha. cbn [bind]. rewrite Ha0. cbn [bind]. rewrite Ha1. cbn [bind].
  rewrite Ha2. cbn [bind].
  apply py_get_Ok in Ha as [-> _], Ha0 as [-> _], Ha1 as [-> _].
  apply py_upper_Ok in Ha2 as [-> _].
  by apply (record_finding_any _ _ _ acc acc').
Qed.

Lemma grype_match_any (m : json) (acc acc' acc2 : normalized) :
  grype_match m acc = Ok acc' ->
  grype_match m acc2 = Ok (add_finding acc2 (grype_fields m)).
Proof.
  unfold grype_match. intros H. do 7 bind_inv H.
  assert (a3 = a) as -> by congruence. clear Ha3.
  rewrite Ha. cbn [bind]. rewrite Ha0. cbn [bind]. rewrite Ha1. cbn [bind].
  rewrite Ha2. cbn [bind]. rewrite Ha4. cbn [bind]. rewrite Ha5. cbn [bind].
  apply py_get_Ok in Ha as [-> _], Ha0 as [-> _], Ha1 as [-> _], Ha2 as [-> _],
    Ha4 as [-> _].
  apply py_upper_Ok in Ha5 as [-> _].
  by apply (record_finding_any _ _ _ acc acc').
Qed.

Lemma for_each_pure {A S : Type} (body : A -> S -> outcome S) (step : S -> A -> S)
    (items : list A) (acc : S) :
  Forall (fun x => forall a, body x a = Ok (step a x)) items ->
  for_each body items acc = Ok (foldl step acc items).
Proof.
  intros H. revert acc. induction H as [|x items Hx _ IH]; intros acc; simpl.
  - reflexivity.
  - rewrite Hx. simpl. apply IH.
Qed.

Lemma for_each_Ok_Forall {A S : Type} (body : A -> S -> outcome S) (step : S -> A -> S)
    (items : list A) (acc acc' : S) :
  (forall x a a', body x a = Ok a' -> forall b, body x b = Ok (step b x)) ->
  for_each body items acc = Ok acc' ->
  Forall (fun x => forall a, body x a = Ok (step a x)) items.
Proof.
  intros Hany. revert acc. induction items as [|x items IH]; intros acc H; simpl in H.
  - constructor.
  - bind_inv H. constructor; [by eapply Hany | by eapply IH].
Qed.

Lemma add_finding_comm (acc : normalized) (f g : finding) :
  add_finding (add_finding acc f) g = add_finding (add_finding acc g) f.
Proof.
  unfold add_finding. destruct (qualifies f), (qualifies g); simpl; try reflexivity.
  rewrite counter_add_comm. f_equal. set_solver.
Qed.

Lemma foldl_add_finding_Permutation (fs fs' : list finding) :
  fs ≡ₚ fs' -> forall acc, foldl add_finding acc fs = foldl add_finding acc fs'.
Proof.
  induction 1 as [|f fs fs' _ IH|f g fs|fs1 fs2 fs3 _ IH1 _ IH2]; intros acc; simpl.
  - reflexivity.
  - apply IH.
  - by rewrite add_finding_comm.
  - by rewrite IH1.
Qed.




(** A document that is not empty and not a JSON object (a non-empty
    list or string, a non-zero number, true) makes both extractors raise
    AttributeError; an empty one of any kind gives the empty result. *)
Theorem extract_top_level_kind (data : json) :
  (truthy data = false ->
     extract_trivy_vulns data = Ok empty_result
     /\ extract_grype_vulns data = Ok empty_result)
  /\ (truthy data = true -> (forall members, data <> JObj members) ->
     extract_trivy_vulns data = Raise AttributeError
     /\ extract_grype_vulns data = Raise AttributeError).
Proof.
  split.
  - intros H. unfold extract_trivy_vulns, extract_grype_vulns. by rewrite H.
  - intros H Hobj. unfold extract_trivy_vulns, extract_grype_vulns. rewrite H.
    destruct data; try done. by destruct (Hobj members).
Qed.

Lemma for_each_trivy_results (vss : list (list json)) (acc : normalized) :
  for_each trivy_result (trivy_result_of <$> vss) acc
  = for_each trivy_vuln (concat vss) acc.
Proof.
  revert acc. induction vss as [|vs vss IH]; intros acc; [reflexivity|].
  rewrite fmap_cons. cbn [for_each concat]. rewrite for_each_app.
  change (trivy_result (trivy_result_of vs) acc) with (for_each trivy_vuln vs acc).
  destruct (for_each trivy_vuln vs acc); simpl; [apply IH|reflexivity..].
Qed.

(** How Trivy findings are grouped under results does not matter: a
    document with several results extracts, or fails, exactly as the
    document with one result holding all their findings in order. *)
Theorem trivy_grouping_irrelevant (vss : list (list json)) :
  extract_trivy_vulns (trivy_results_doc (trivy_result_of <$> vss))
  = extract_trivy_vulns (trivy_doc (concat vss)).
Proof.
  unfold extract_trivy_vulns, trivy_results_doc, trivy_doc. simpl.
  rewrite for_each_trivy_results.
  change (trivy_result (JObj [("Vulnerabilities", JArr (concat vss))]) empty_result)
    with (for_each trivy_vuln (concat vss) empty_result).
  by destruct (for_each trivy_vuln (concat vss) empty_result).
Qed.

(** *** Reordering and concatenating findings *)

Lemma extract_trivy_doc (vulns : list json) :
  extract_trivy_vulns (trivy_doc vulns) = for_each trivy_vuln vulns empty_result.
Proof.
  unfold extract_trivy_vulns, trivy_doc. simpl.
  change (trivy_result (JObj [("Vulnerabilities", JArr vulns)]) empty_result)
    with (for_each trivy_vuln vulns empty_result).
  by destruct (for_each trivy_vuln vulns empty_result).
Qed.

Lemma extract_trivy_results_doc (results : list json) :
  extract_trivy_vulns (trivy_results_doc results)
  = for_each trivy_result results empty_result.
Proof. reflexivity. Qed.

Lemma extract_grype_doc (matches : list json) :
  extract_grype_vulns (grype_doc matches) = for_each grype_match matches empty_result.
Proof. reflexivity. Qed.

Lemma trivy_result_any (result : json) (acc acc' acc2 : normalized) :
  trivy_result result acc = Ok acc' ->
  trivy_result result acc2
  = Ok (foldl add_finding acc2
          (trivy_fields <$> items_of (member_or (JArr []) "Vulnerabilities" result))).
Proof.
  unfold trivy_result. intros H. do 2 bind_inv H.
  rewrite Ha. cbn [bind]. rewrite Ha0. cbn [bind].
  apply py_get_Ok in Ha as [-> _].
  rewrite <- (py_iter_items trivy_vuln _ _ _ _ (fun _ _ => eq_refl) Ha0 H).
  rewrite foldl_fmap. apply for_each_pure.
  eapply for_each_Ok_Forall; [|exact H].
  intros x b b' Hx c. by apply (trivy_vuln_any x b b').
Qed.

Lemma foldl_add_finding_merge (fs : list finding) (acc : normalized) :
  foldl add_finding acc fs = merge_results acc (foldl add_finding empty_result fs).
Proof.
  rewrite !foldl_add_finding. unfold merge_results, empty_result. cbn [fst snd].
  f_equal; [set_solver|]. by rewrite foldl_counter_add_counts.
Qed.

Lemma for_each_reorder {A : Type} (body : A -> normalized -> outcome normalized)
    (fields : A -> list finding) (items items' : list A) (r : normalized) :
  (forall x a a', body x a = Ok a' ->
     forall b, body x b = Ok (foldl add_finding b (fields x))) ->
  items ≡ₚ items' ->
  for_each body items empty_result = Ok r ->
  for_each body items' empty_result = Ok r.
Proof.
  intros Hany Hperm H.
  pose proof (for_each_Ok_Forall body (fun a x => foldl add_finding a (fields x))
                _ _ _ Hany H) as Hall.
  rewrite (for_each_pure _ _ _ _ Hall) in H.
  rewrite Hperm in Hall. rewrite (for_each_pure _ _ _ _ Hall), <- H. f_equal.
  rewrite <- !foldl_bind. apply foldl_add_finding_Permutation. by rewrite Hperm.
Qed.

Lemma for_each_concat {A : Type} (body : A -> normalized -> outcome normalized)
    (fields : A -> list finding) (l1 l2 : list A) (r1 r2 : normalized) :
  (forall x a a', body x a = Ok a' ->
     forall b, body x b = Ok (foldl add_finding b (fields x))) ->
  for_each body l1 empty_result = Ok r1 ->
  for_each body l2 empty_result = Ok r2 ->
  for_each body (l1 ++ l2) empty_result = Ok (merge_results r1 r2).
Proof.
  intros Hany H1 H2.
  pose proof (for_each_Ok_Forall body (fun a x => foldl add_finding a (fields x))
                _ _ _ Hany H1) as Hall1.
  pose proof (for_each_Ok_Forall body (fun a x => foldl add_finding a (fields x))
                _ _ _ Hany H2) as Hall2.
  rewrite (for_each_pure _ _ _ _ Hall1) in H1.
  rewrite (for_each_pure _ _ _ _ Hall2) in H2.
  rewrite for_each_app, (for_each_pure _ _ _ _ Hall1). cbn [bind].
  rewrite (for_each_pure _ _ _ _ Hall2). f_equal.
  inversion H1 as [E1]. inversion H2 as [E2]. rewrite E1.
  rewrite <- !foldl_bind. rewrite <- foldl_bind in E2.
  rewrite foldl_add_finding_merge. by rewrite E2.
Qed.

Lemma trivy_vuln_any_fields (x : json) (a a' : normalized) :
  trivy_vuln x a = Ok a' ->
  forall b, trivy_vuln x b = Ok (foldl add_finding b [trivy_fields x]).
Proof. intros H b. by apply (trivy_vuln_any x a a'). Qed.

Lemma trivy_result_any_fields (x : json) (a a' : normalized) :
  trivy_result x a = Ok a' ->
  forall b, trivy_result x b
            = Ok (foldl add_finding b
                    (trivy_fields <$> items_of (member_or (JArr []) "Vulnerabilities" x))).
Proof. intros H b. by apply (trivy_result_any x a a'). Qed.

Lemma grype_match_any_fields (x : json) (a a' : normalized) :
  grype_match x a = Ok a' ->
  forall b, grype_match x b = Ok (foldl add_finding b [grype_fields x]).
Proof. intros H b. by apply (grype_match_any x a a'). Qed.

(** The order of the findings in a scanner's output does not matter:
    when an extractor returns on a document, it returns the same result
    on the document with its findings reordered. *)
Theorem extraction_order_irrelevant (vulns vulns' matches matches' : list json)
    (rt rg : normalized) :
  vulns ≡ₚ vulns' -> matches ≡ₚ matches' ->
  extract_trivy_vulns (trivy_doc vulns) = Ok rt ->
  extract_grype_vulns (grype_doc matches) = Ok rg ->
  extract_trivy_vulns (trivy_doc vulns') = Ok rt
  /\ extract_grype_vulns (grype_doc matches') = Ok rg.
Proof.
  rewrite !extract_trivy_doc, !extract_grype_doc. intros Hv Hm Ht Hg. split.
  - exact (for_each_reorder trivy_vuln (fun x => [trivy_fields x]) _ _ _
             trivy_vuln_any_fields Hv Ht).
  - exact (for_each_reorder grype_match (fun x => [grype_fields x]) _ _ _
             grype_match_any_fields Hm Hg).
Qed.

(** Extraction goes along with concatenation: when an extractor returns
    on two documents, it returns on the document holding the results (or
    matches) of the first followed by those of the second, with the keys
    of both and the histograms added label by label. *)
Theorem extraction_of_concatenation (results1 results2 matches1 matches2 : list json)
    (t1 t2 g1 g2 : normalized) :
  extract_trivy_vulns (trivy_results_doc results1) = Ok t1 ->
  extract_trivy_vulns (trivy_results_doc results2) = Ok t2 ->
  extract_grype_vulns (grype_doc matches1) = Ok g1 ->
  extract_grype_vulns (grype_doc matches2) = Ok g2 ->
  extract_trivy_vulns (trivy_results_doc (results1 ++ results2)) = Ok (merge_results t1 t2)
  /\ extract_grype_vulns (grype_doc (matches1 ++ matches2)) = Ok (merge_results g1 g2).
Proof.
  rewrite !extract_trivy_results_doc, !extract_grype_doc. intros Ht1 Ht2 Hg1 Hg2. split.
  - exact (for_each_concat trivy_result _ _ _ _ _ trivy_result_any_fields Ht1 Ht2).
  - exact (for_each_concat grype_match (fun x => [grype_fields x]) _ _ _ _
             grype_match_any_fields Hg1 Hg2).
Qed.

(** ** scan_all *)

Lemma scan_image_shift (subprocess_run : list string -> run_result)
    (json_loads : string -> loads_result) (img : string)
    (done done' : list image_comparison) :
  scan_image subprocess_run json_loads img done = Ok done' ->
  exists A B sa sb,
    done' = done ++ [compare_results img A B sa sb]
    /\ forall done2, scan_image subprocess_run json_loads img done2
                     = Ok (done2 ++ [compare_results img A B sa sb]).
Proof.
  unfold scan_image. intros H. do 4 bind_inv H. inversion H.
  exists a1.1, a2.1, a1.2, a2.2. split; [reflexivity|].
  intros done2. rewrite Ha. cbn [bind]. rewrite Ha0. cbn [bind].
  rewrite Ha1. cbn [bind]. by rewrite Ha2.
Qed.

Lemma scan_loop_shift (subprocess_run : list string -> run_result)
    (json_loads : string -> loads_result) (imgs : list string)
    (done done' : list image_comparison) :
  for_each (scan_image subprocess_run json_loads) imgs done = Ok done' ->
  exists new,
    done' = done ++ new
    /\ Forall (fun r => exists A B sa sb, r = compare_results (image r) A B sa sb) new
    /\ forall done2, for_each (scan_image subprocess_run json_loads) imgs done2
                     = Ok (done2 ++ new).
Proof.
  revert done. induction imgs as [|img imgs IH]; intros done H; simpl in H.
  - inversion H. exists []. rewrite app_nil_r. split; [done|]. split; [constructor|].
    intros done2. by rewrite app_nil_r.
  - bind_inv H. apply scan_image_shift in Ha as (A & B & sa & sb & -> & Hany).
    apply IH in H as (new & -> & Hall & Hloop).
    exists (compare_results img A B sa sb :: new). split; [by rewrite <- app_assoc|].
    split.
    + constructor; [|done]. by exists A, B, sa, sb.
    + intros done2. simpl. rewrite Hany. cbn [bind]. rewrite Hloop.
      by rewrite <- app_assoc.
Qed.

Lemma scan_all_init (subprocess_run : list string -> run_result)
    (json_loads : string -> loads_result) (imgs : list string) :
  scan_all subprocess_run json_loads (init imgs)
  = let* done := for_each (scan_image subprocess_run json_loads) imgs [] in
    Ok {| images := imgs; results := done |}.
Proof. reflexivity. Qed.

(** The turns of [scan_all] do not influence each other: scanning the
    images of two lists in one go returns exactly when scanning each
    list on its own returns, and then gives the records of the first
    list followed by those of the second. *)
Theorem scan_all_of_concatenation (subprocess_run : list string -> run_result)
    (json_loads : string -> loads_result) (imgs1 imgs2 : list string) (self : scanner) :
  scan_all subprocess_run json_loads (init (imgs1 ++ imgs2)) = Ok self <->
  exists self1 self2,
    scan_all subprocess_run json_loads (init imgs1) = Ok self1
    /\ scan_all subprocess_run json_loads (init imgs2) = Ok self2
    /\ self = {| images := imgs1 ++ imgs2; results := results self1 ++ results self2 |}.
Proof.
  rewrite !scan_all_init. split.
  - intros H. bind_inv H. inversion H. rewrite for_each_app in Ha.
    bind_inv Ha. rename a0 into done1.
    apply scan_loop_shift in Ha as (new2 & -> & _ & Hloop2).
    exists {| images := imgs1; results := done1 |}, {| images := imgs2; results := new2 |}.
    rewrite ?scan_all_init, Ha0. cbn [bind]. split; [reflexivity|].
    rewrite ?scan_all_init, (Hloop2 []). by cbn [bind app].
  - intros (self1 & self2 & H1 & H2 & ->).
    rewrite ?scan_all_init in H1, H2. bind_inv H1. bind_inv H2.
    inversion H1. inversion H2. simpl.
    rewrite for_each_app, Ha. cbn [bind].
    apply scan_loop_shift in Ha0 as (new2 & E & _ & Hloop2). simpl in E. subst a0.
    by rewrite Hloop2.
Qed.

(** An image for which both scanners finish with an empty or
    unparsable output gets a record all of whose totals and counts are
    zero and whose histograms and detail lists are empty; the loop goes
    on after it. *)
Theorem scan_image_degraded_record (subprocess_run : list string -> run_result)
    (json_loads : string -> loads_result) (img : string) (done : list image_comparison)
    (rc1 rc2 : Z) (out1 err1 out2 err2 : string) :
  subprocess_run ["trivy"; "image"; "--format"; "json"; "--quiet"; img]
    = Completed rc1 out1 err1 ->
  subprocess_run ["grype"; img; "-o"; "json"; "-q"] = Completed rc2 out2 err2 ->
  out1 = "" \/ json_loads out1 = JSONDecodeError ->
  out2 = "" \/ json_loads out2 = JSONDecodeError ->
  scan_image subprocess_run json_loads img done
  = Ok (done ++ [{| image := img;
                    trivy := {| total := 0; severity := ∅ |};
                    grype := {| total := 0; severity := ∅ |};
                    comparison := {| common_count := 0; only_trivy_count := 0;
                                     only_grype_count := 0 |};
                    details := {| only_trivy := []; only_grype := []; common := [] |} |}]).
Proof.
  intros H1 H2 E1 E2. unfold scan_image, scan_with_trivy, scan_with_grype.
  rewrite H1, H2.
  rewrite (proj1 (read_output_Completed json_loads rc1 out1 err1) E1).
  rewrite (proj1 (read_output_Completed json_loads rc2 out2 err2) E2).
  reflexivity.
Qed.

Lemma scan_all_raises_at (subprocess_run : list string -> run_result)
    (json_loads : string -> loads_result) (before after : list string) (img : string)
    (e : exn) (self : scanner) :
  scan_all subprocess_run json_loads (init before) = Ok self ->
  subprocess_run ["trivy"; "image"; "--format"; "json"; "--quiet"; img] = RunRaises e
  \/ (returns (scan_with_trivy subprocess_run json_loads img) = true
      /\ subprocess_run ["grype"; img; "-o"; "json"; "-q"] = RunRaises e) ->
  scan_all subprocess_run json_loads (init (before ++ img :: after)) = Raise e.
Proof.
  rewrite !scan_all_init. intros H Hraise. bind_inv H.
  rewrite for_each_app, Ha. cbn [bind for_each].
  assert (scan_image subprocess_run json_loads img a = Raise e) as ->; [|reflexivity].
  unfold scan_image, scan_with_trivy, scan_with_grype.
  destruct Hraise as [-> | [Hr ->]]; [reflexivity|].
  unfold scan_with_trivy in Hr. destruct (returns_Ok _ Hr) as [d ->].
  reflexivity.
Qed.

(** One process that cannot be started stops the whole batch: when the
    images before it scan fine and then Trivy cannot be started, or the
    Trivy adapter returns and Grype cannot be started, [scan_all] raises
    that exception and appends no record for this or any later image. *)
Theorem scan_all_aborts_when_process_cannot_start
    (subprocess_run : list string -> run_result)
    (json_loads : string -> loads_result) (before after : list string) (img : string)
    (e : exn) (self : scanner) :
  scan_all subprocess_run json_loads (init before) = Ok self ->
  subprocess_run ["trivy"; "image"; "--format"; "json"; "--quiet"; img] = RunRaises e
  \/ (returns (scan_with_trivy subprocess_run json_loads img) = true
      /\ subprocess_run ["grype"; img; "-o"; "json"; "-q"] = RunRaises e) ->
  scan_all subprocess_run json_loads (init (before ++ img :: after)) = Raise e.
Proof. apply scan_all_raises_at. Qed.

Lemma foldl_accumulate_split (rs : list image_comparison) (t : totals) :
  Forall (fun r => exists A B sa sb, r = compare_results (image r) A B sa sb) rs ->
  total_trivy t = total_common t + total_only_trivy t ->
  total_grype t = total_common t + total_only_grype t ->
  let t' := foldl accumulate t rs in
  total_trivy t' = total_common t' + total_only_trivy t'
  /\ total_grype t' = total_common t' + total_only_grype t'.
Proof.
  intros Hall. revert t. induction Hall as [|r rs Hr _ IH]; intros t Ht Hg; cbv zeta.
  - done.
  - cbn [foldl]. apply IH.
    + destruct Hr as (A & B & sa & sb & ->). cbn [accumulate total_trivy total_common
        total_only_trivy]. unfold compare_results at 1 2 3.
      cbn [trivy total comparison common_count only_trivy_count].
      rewrite (size_split A B). lia.
    + destruct Hr as (A & B & sa & sb & ->). cbn [accumulate total_grype total_common
        total_only_grype]. unfold compare_results at 1 2 3.
      cbn [grype total comparison common_count only_grype_count].
      rewrite (size_split B A). assert (B ∩ A = A ∩ B) as -> by set_solver. lia.
Qed.

(** In the report of a freshly scanned batch each scanner's total number
    of findings is the number of common findings plus the number of
    findings only that scanner has. *)
Theorem report_totals_split (subprocess_run : list string -> run_result)
    (json_loads : string -> loads_result) (imgs : list string) (self : scanner) :
  scan_all subprocess_run json_loads (init imgs) = Ok self ->
  let s := report_summary (generate_report self) in
  total_findings (trivy_summary s)
    = common_findings (comparison_totals s) + only_trivy_findings (comparison_totals s)
  /\ total_findings (grype_summary s)
    = common_findings (comparison_totals s) + only_grype_findings (comparison_totals s).
Proof.
  rewrite scan_all_init. intros H. bind_inv H. inversion H. cbv zeta.
  apply scan_loop_shift in Ha as (new & E & Hall & _). simpl in E. subst a.
  unfold generate_report.
  cbn [results report_summary trivy_summary grype_summary comparison_totals
       total_findings common_findings only_trivy_findings only_grype_findings].
  by apply foldl_accumulate_split.
Qed.

(** ** print_summary *)

Lemma length_breakdown (rs : list image_comparison) :
  length (rs ≫= breakdown_lines) = 4 * length rs.
Proof.
  induction rs as [|r rs IH]; [reflexivity|].
  rewrite bind_cons, length_app, IH. simpl. lia.
Qed.

Lemma breakdown_block (rs : list image_comparison) (rest : list string) (i : nat)
    (r : image_comparison) :
  rs !! i = Some r ->
  take 4 (drop (4 * i) ((rs ≫= breakdown_lines) ++ rest)) = breakdown_lines r.
Proof.
  revert i. induction rs as [|r0 rs IH]; intros i Hi; [done|].
  rewrite bind_cons. destruct i as [|i].
  - inversion Hi. reflexivity.
  - replace (4 * S i) with (S (S (S (S (4 * i))))) by lia.
    simpl in Hi. cbn [breakdown_lines app drop]. by apply IH.
Qed.

(** [print_summary] prints four lines per record and seventeen more. *)
Theorem print_summary_length (self : scanner) :
  length (print_summary self) = 4 * length (results self) + 17.
Proof.
  unfold print_summary. cbv zeta. rewrite !length_app, length_breakdown.
  reflexivity.
Qed.

(** The breakdown comes first and follows the order of the records: the
    four lines from position 4i on are those of the i-th record,
    starting with its image name and a colon. *)
Theorem print_summary_breakdown_in_order (self : scanner) (i : nat) (r : image_comparison) :
  results self !! i = Some r ->
  take 4 (drop (4 * i) (print_summary self)) = breakdown_lines r
  /\ print_summary self !! (4 * i) = Some (image r ++ ":")%string.
Proof.
  intros Hi. unfold print_summary. cbv zeta.
  pose proof (breakdown_block (results self)
    ([repeat_str "=" 50; "CUMULATIVE TOTAL"; repeat_str "=" 50; ""]
     ++ cumulative_lines "Trivy" (trivy_summary (report_summary (generate_report self)))
     ++ [""]
     ++ cumulative_lines "Grype" (grype_summary (report_summary (generate_report self))))
    i r Hi) as Hb.
  split; [exact Hb|].
  assert (forall l : list string, take 4 (drop (4 * i) l) = breakdown_lines r ->
            l !! (4 * i) = Some (image r ++ ":")%string) as Hhead.
  { intros l Hl. rewrite <- (Nat.add_0_r (4 * i)), <- lookup_drop.
    destruct (drop (4 * i) l) as [|x xs]; [discriminate|]. by inversion Hl. }
  by apply Hhead.
Qed.

Lemma same_shown_breakdown (rs rs' : list image_comparison) :
  Forall2 same_shown rs rs' -> rs ≫= breakdown_lines = rs' ≫= breakdown_lines.
Proof.
  induction 1 as [|r r' rs rs' Hr _ IH]; [reflexivity|].
  rewrite !bind_cons, IH. f_equal.
  destruct Hr as (Hi & [Ht Hts] & [Hg Hgs]).
  unfold shown_severities in Hts, Hgs.
  repeat match goal with H : Forall _ (_ :: _) |- _ => apply Forall_cons in H as [? H] end.
  unfold breakdown_lines, breakdown_line. congruence.
Qed.

Lemma same_shown_sums (rs rs' : list image_comparison) (f : image_comparison -> nat) :
  Forall2 (fun r r' => f r = f r') rs rs' -> sum_list_with f rs = sum_list_with f rs'.
Proof. induction 1 as [|r r' rs rs' Hr _ IH]; simpl; [reflexivity|]. by rewrite Hr, IH. Qed.

Lemma cumulative_lines_eq (name : string) (s s' : scanner_summary) :
  total_findings s = total_findings s' ->
  Forall (fun label => counter_get (severity_totals s) label
                       = counter_get (severity_totals s') label) shown_severities ->
  cumulative_lines name s = cumulative_lines name s'.
Proof.
  intros Ht Hs. unfold shown_severities in Hs.
  repeat match goal with H : Forall _ (_ :: _) |- _ => apply Forall_cons in H as [? H] end.
  unfold cumulative_lines, shown_severities. cbn [fmap list_fmap].
  congruence.
Qed.

(** What [print_summary] shows depends on the histograms only through
    the counts of CRITICAL, HIGH, MEDIUM and LOW: two scanner objects
    whose records agree on image, totals and these four counts print the
    same text, whatever their other labels (UNKNOWN, NEGLIGIBLE, ...) and
    whatever their detail lists. *)
Theorem print_summary_shows_four_labels_only (self self' : scanner) :
  Forall2 same_shown (results self) (results self') ->
  print_summary self = print_summary self'.
Proof.
  intros H. unfold print_summary. cbv zeta.
  rewrite (same_shown_breakdown _ _ H). do 2 f_equal.
  unfold generate_report.
  cbn [report_summary trivy_summary grype_summary].
  destruct (foldl_accumulate_sums (results self) zero_totals)
    as (T1 & G1 & _ & _ & _ & TS1 & GS1).
  destruct (foldl_accumulate_sums (results self') zero_totals)
    as (T2 & G2 & _ & _ & _ & TS2 & GS2).
  f_equal; [|f_equal]; apply cumulative_lines_eq;
    cbn [total_findings severity_totals].
  - rewrite T1, T2. f_equal. apply same_shown_sums.
    eapply Forall2_impl; [exact H|]. by intros r r' (_ & [? _] & _).
  - unfold shown_severities. repeat constructor; rewrite TS1, TS2; f_equal;
      apply same_shown_sums; (eapply Forall2_impl; [exact H|]);
      intros r r' (_ & [_ Hs] & _); unfold shown_severities in Hs;
      repeat match goal with
             | H : Forall _ (_ :: _) |- _ => apply Forall_cons in H as [? H]
             end; assumption.
  - rewrite G1, G2. f_equal. apply same_shown_sums.
    eapply Forall2_impl; [exact H|]. by intros r r' (_ & _ & [? _]).
  - unfold shown_severities. repeat constructor; rewrite GS1, GS2; f_equal;
      apply same_shown_sums; (eapply Forall2_impl; [exact H|]);
      intros r r' (_ & _ & [_ Hs]); unfold shown_severities in Hs;
      repeat match goal with
             | H : Forall _ (_ :: _) |- _ => apply Forall_cons in H as [? H]
             end; assumption.
Qed.

(** ** main *)

Lemma elem_of_Printed_fmap (text : string) (lines : list string) :
  Printed text ∈ Printed <$> lines <-> text ∈ lines.
Proof.
  rewrite list_elem_of_fmap. split.
  - intros (l & E & Hl). by inversion E.
  - intros Hl. eauto.
Qed.

(** When [main] completes, the report covers the images of the command
    line in their order; a file is written exactly when [-o] names a
    non-empty path, with the same JSON text that [--json] prints; and
    standard output gets that JSON text with [--json], the summary
    without it. *)
Theorem main_outputs (subprocess_run : list string -> run_result)
    (json_loads : string -> loads_result) (json_dumps : report -> string)
    (can_open : string -> bool) (args : cli_args) (events : list output_event) :
  main subprocess_run json_loads json_dumps can_open args = Ok events ->
  exists scanner,
    scan_all subprocess_run json_loads (init (arg_images args)) = Ok scanner
    /\ image <$> per_image (generate_report scanner) = arg_images args
    /\ (forall path text,
          FileWritten path text ∈ events <->
          arg_output args = Some path /\ path <> ""
          /\ text = json_dumps (generate_report scanner))
    /\ (forall text,
          Printed text ∈ events <->
          if arg_json args then text = json_dumps (generate_report scanner)
          else text ∈ print_summary scanner).
Proof.
  unfold main. intros H. bind_inv H. rename a into scanner. bind_inv H.
  rename a into written. inversion H as [E]. clear H E. exists scanner.
  split; [exact Ha|]. split.
  { apply scan_all_Ok in Ha as (Hi & new & Hr & Hn). simpl in Hr, Hi, Hn |- *.
    by rewrite Hr, Hn. }
  assert (forall text, ~ FileWritten "" text ∈ written /\
            forall path, FileWritten path text ∈ written <->
              arg_output args = Some path /\ path <> ""
              /\ text = json_dumps (generate_report scanner)) as Hfile.
  { intros text. unfold write_output in Ha0.
    destruct (arg_output args) as [p|]; simpl in Ha0.
    - destruct (String.eqb p "") eqn:Ep; simpl in Ha0.
      + inversion Ha0. apply String.eqb_eq in Ep. subst p.
        split; [by intros ?%elem_of_nil|]. intros path. split.
        * by intros ?%elem_of_nil.
        * intros (E1 & Hne & _). by inversion E1.
      + apply String.eqb_neq in Ep. destruct (can_open p); inversion Ha0.
        split.
        * intros Habs%list_elem_of_singleton. inversion Habs. congruence.
        * intros path. rewrite list_elem_of_singleton. split.
          -- intros Heq. inversion Heq. by subst.
          -- intros (E1 & _ & ->). by inversion E1.
    - inversion Ha0. split; [by intros ?%elem_of_nil|]. intros path. split.
      + by intros ?%elem_of_nil.
      + by intros (E1 & _).
  }
  assert (forall text, ~ Printed text ∈ written) as Hnp.
  { intros text. unfold write_output in Ha0.
    destruct (arg_output args) as [p|]; simpl in Ha0;
      [destruct (String.eqb p ""); simpl in Ha0; [|destruct (can_open p)]|];
      inversion Ha0; try (by intros ?%elem_of_nil).
    intros Habs%list_elem_of_singleton. discriminate. }
  split.
  - intros path text. rewrite elem_of_app. destruct (Hfile text) as [_ Hf].
    rewrite Hf. split; [|by left]. intros [Hw|Hp]; [done|].
    destruct (arg_json args).
    + apply list_elem_of_singleton in Hp. discriminate.
    + apply list_elem_of_fmap in Hp as (l & Hl & _). discriminate.
  - intros text. rewrite elem_of_app. split.
    + intros [Hw|Hp]; [by destruct (Hnp text)|].
      destruct (arg_json args).
      * apply list_elem_of_singleton in Hp. by inversion Hp.
      * by apply elem_of_Printed_fmap.
    + intros Hp. right. destruct (arg_json args).
      * subst. by apply list_elem_of_singleton.
      * by apply elem_of_Printed_fmap.
Qed.

(** [main] produces nothing on standard output and writes no file when
    a scan raises: with a process that cannot be started for one of the
    images, [main] ends with that exception whatever [-o] and [--json]
    say, also when all other images scan fine. *)
Theorem main_aborts_when_process_cannot_start
    (subprocess_run : list string -> run_result)
    (json_loads : string -> loads_result) (json_dumps : report -> string)
    (can_open : string -> bool) (args : cli_args)
    (before after : list string) (img : string) (e : exn) (self : scanner) :
  arg_images args = before ++ img :: after ->
  scan_all subprocess_run json_loads (init before) = Ok self ->
  subprocess_run ["trivy"; "image"; "--format"; "json"; "--quiet"; img] = RunRaises e
  \/ (returns (scan_with_trivy subprocess_run json_loads img) = true
      /\ subprocess_run ["grype"; img; "-o"; "json"; "-q"] = RunRaises e) ->
  main subprocess_run json_loads json_dumps can_open args = Raise e.
Proof.
  intros Hi Hb Hraise. unfold main. rewrite Hi.
  by rewrite (scan_all_raises_at _ _ _ _ _ _ _ Hb Hraise).
Qed.

(** Scanning may succeed and still nothing be reported: when [-o] names
    a non-empty path that cannot be opened for writing, [main] raises
    before anything is printed to standard output. *)
Theorem main_raises_when_output_cannot_be_opened
    (subprocess_run : list string -> run_result)
    (json_loads : string -> loads_result) (json_dumps : report -> string)
    (can_open : string -> bool) (args : cli_args) (path : string) (self : scanner) :
  scan_all subprocess_run json_loads (init (arg_images args)) = Ok self ->
  arg_output args = Some path -> path <> "" -> can_open path = false ->
  main subprocess_run json_loads json_dumps can_open args = Raise OSError.
Proof.
  intros Hs Ho Hne Hc. unfold main, write_output. rewrite Hs, Ho. cbn [bind truthy].
  apply String.eqb_neq in Hne. by rewrite Hne, Hc.
Qed.

End Builtins.

(** * Examples *)

(** The examples run with the case mapping of the two sharp s. *)
Global Existing Instance example_unicode_upper.

(** Trivy alone reports two findings, handed over in descending order:
    the detail list has them ascending. *)
Lemma compare_results_sorted_witness :
  only_trivy (details (compare_results "nginx:latest"
    {[("CVE-2022-2", "zlib"); ("CVE-2021-1", "openssl")]} ∅ ∅ ∅))
  = [("CVE-2021-1", "openssl"); ("CVE-2022-2", "zlib")].
Proof.
  rewrite <- (proj1 (proj2 (proj2 (compare_results_sorted "nginx:latest"
    {[("CVE-2022-2", "zlib"); ("CVE-2021-1", "openssl")]} ∅ ∅ ∅)))
    [("CVE-2022-2", "zlib"); ("CVE-2021-1", "openssl")]).
  - reflexivity.
  - vm_compute. first [reflexivity | apply perm_swap].
Defined.



(** Three Trivy findings, one without id and one with an empty package
    name, and two Grype matches, one without artifact: only the complete
    ones come back. *)
Lemma empty_id_or_package_dropped_witness :
  let trivy_data :=
    trivy_doc [JObj [("PkgName", JStr "openssl"); ("Severity", JStr "HIGH")];
               trivy_vuln_of "CVE-2021-1" "" "LOW";
               trivy_vuln_of "CVE-2021-1" "openssl" "CRITICAL"] in
  let grype_data :=
    grype_doc [JObj [("vulnerability", JObj [("id", JStr "CVE-2022-2")])];
               grype_match_of "CVE-2022-2" "zlib" "high"] in
  extract_trivy_vulns trivy_data = Ok ({[("CVE-2021-1", "openssl")]}, {["CRITICAL" := 1]})
  /\ extract_grype_vulns grype_data = Ok ({[("CVE-2022-2", "zlib")]}, {["HIGH" := 1]})
  /\ forall k, k ∈ ({[("CVE-2021-1", "openssl")]} : gset finding_key)
                 ∪ {[("CVE-2022-2", "zlib")]} ->
               k.1 <> "" /\ k.2 <> "".
Proof.
  intros trivy_data grype_data.
  assert (extract_trivy_vulns trivy_data
          = Ok ({[("CVE-2021-1", "openssl")]}, {["CRITICAL" := 1]})) as Ht.
  { vm_compute. reflexivity. }
  assert (extract_grype_vulns grype_data
          = Ok ({[("CVE-2022-2", "zlib")]}, {["HIGH" := 1]})) as Hg.
  { vm_compute. reflexivity. }
  split; [exact Ht|]. split; [exact Hg|].
  exact (proj1 (proj2 (proj2
    (empty_id_or_package_dropped trivy_data grype_data _ _ Ht Hg)))).
Defined.

(** The same CVE against openssl twice (once as "HIGH", once as "high")
    and one other finding: two keys, three counts. *)
Lemma histogram_counts_every_occurrence_witness :
  let trivy_data :=
    trivy_doc [trivy_vuln_of "CVE-2021-1" "openssl" "HIGH";
               trivy_vuln_of "CVE-2021-1" "openssl" "high";
               trivy_vuln_of "CVE-2022-2" "zlib" "LOW"] in
  let grype_data :=
    grype_doc [grype_match_of "CVE-2021-1" "openssl" "High";
               grype_match_of "CVE-2021-1" "openssl" "Critical"] in
  let rt : normalized :=
    ({[("CVE-2021-1", "openssl"); ("CVE-2022-2", "zlib")]}, {["HIGH" := 2; "LOW" := 1]}) in
  let rg : normalized :=
    ({[("CVE-2021-1", "openssl")]}, {["HIGH" := 1; "CRITICAL" := 1]}) in
  extract_trivy_vulns trivy_data = Ok rt
  /\ extract_grype_vulns grype_data = Ok rg
  /\ (hist_total rt.2 = 3 /\ hist_total rg.2 = 2)
  /\ (size rt.1 <= hist_total rt.2 /\ size rg.1 <= hist_total rg.2).
Proof.
  intros trivy_data grype_data rt rg.
  assert (extract_trivy_vulns trivy_data = Ok rt) as Ht by (vm_compute; reflexivity).
  assert (extract_grype_vulns grype_data = Ok rg) as Hg by (vm_compute; reflexivity).
  pose proof (histogram_counts_every_occurrence trivy_data grype_data rt rg Ht Hg) as H.
  split; [exact Ht|]. split; [exact Hg|]. split.
  - exact (proj1 H).
  - exact (proj1 (proj2 (proj2 (proj2 (proj2 H))))).
Defined.

(** "High" and "hIGH" are ASCII and differ in case only. *)
Lemma severity_case_insensitive_witness :
  upper "High" = upper "hIGH"
  /\ extract_trivy_vulns (trivy_doc [trivy_vuln_of "CVE-2021-1" "openssl" "High"])
     = Ok ({[("CVE-2021-1", "openssl")]}, {["HIGH" := 1]})
  /\ extract_grype_vulns (grype_doc [grype_match_of "CVE-2021-1" "openssl" "High"])
     = Ok ({[("CVE-2021-1", "openssl")]}, {["HIGH" := 1]}).
Proof.
  pose proof (severity_case_insensitive "High" "hIGH" eq_refl eq_refl) as H.
  split; [exact (proj1 H)|].
  apply (proj1 (proj2 (proj2 (proj2 (proj2 (proj2 H)))))); discriminate.
Defined.

(** C7, as stated, fails beyond ASCII.  The small and the capital sharp
    s are the two cases of one letter, but [str.upper] turns the small
    one into SS and leaves the capital one: findings that differ only in
    this take two buckets, with either extractor. *)
Lemma sharp_s_labels_in_two_buckets :
  extract_trivy_vulns (trivy_doc [trivy_vuln_of "CVE-2021-1" "openssl" small_sharp_s])
    = Ok ({[("CVE-2021-1", "openssl")]}, {["SS" := 1]})
  /\ extract_trivy_vulns (trivy_doc [trivy_vuln_of "CVE-2021-1" "openssl" capital_sharp_s])
    = Ok ({[("CVE-2021-1", "openssl")]}, {[capital_sharp_s := 1]})
  /\ extract_grype_vulns (grype_doc [grype_match_of "CVE-2021-1" "openssl" small_sharp_s])
    = Ok ({[("CVE-2021-1", "openssl")]}, {["SS" := 1]})
  /\ extract_grype_vulns (grype_doc [grype_match_of "CVE-2021-1" "openssl" capital_sharp_s])
    = Ok ({[("CVE-2021-1", "openssl")]}, {[capital_sharp_s := 1]})
  /\ extract_trivy_vulns
       (trivy_doc [trivy_vuln_of "CVE-2021-1" "openssl" small_sharp_s;
                   trivy_vuln_of "CVE-2021-1" "openssl" capital_sharp_s])
    = Ok ({[("CVE-2021-1", "openssl")]}, {["SS" := 1; capital_sharp_s := 1]})
  /\ "SS" <> capital_sharp_s.
Proof. repeat split; try (vm_compute; reflexivity). discriminate. Qed.

Lemma missing_severity_same_bucket_witness :
  extract_trivy_vulns
    (trivy_doc [JObj [("VulnerabilityID", JStr "CVE-2021-1"); ("PkgName", JStr "openssl")]])
  = Ok ({[("CVE-2021-1", "openssl")]}, {["UNKNOWN" := 1]})
  /\ extract_grype_vulns
       (grype_doc [JObj [("vulnerability", JObj [("id", JStr "CVE-2021-1")]);
                         ("artifact", JObj [("name", JStr "openssl")])]])
     = Ok ({[("CVE-2021-1", "openssl")]}, {["UNKNOWN" := 1]}).
Proof.
  apply (missing_severity_same_bucket "CVE-2021-1" "openssl"
    [("VulnerabilityID", JStr "CVE-2021-1"); ("PkgName", JStr "openssl")]
    [("vulnerability", JObj [("id", JStr "CVE-2021-1")]);
     ("artifact", JObj [("name", JStr "openssl")])]
    [("id", JStr "CVE-2021-1")] [("name", JStr "openssl")] empty_result);
    (reflexivity || discriminate).
Defined.

(** Trivy prints nothing and exits with 1, Grype prints something that
    is not JSON: both adapters hand back [{}]. *)
Lemma adapters_degrade_to_empty_witness :
  let run := fun argv : list string =>
    match argv with
    | "trivy" :: _ => Completed 1 "" "image not found"
    | _ => Completed 0 "panic: out of memory" ""
    end in
  let loads := fun _ : string => JSONDecodeError in
  scan_with_trivy run loads "nginx:latest" = Ok (JObj [])
  /\ scan_with_grype run loads "nginx:latest" = Ok (JObj []).
Proof.
  intros run loads.
  pose proof (adapters_degrade_to_empty run loads "nginx:latest") as [Ht Hg].
  split.
  - apply (proj1 (Ht 1%Z "" "image not found" eq_refl)). by left.
  - apply (proj1 (Hg 0%Z "panic: out of memory" "" eq_refl)). by right.
Defined.

(** C4, as stated, fails.  When the process cannot be started (binary
    missing) [subprocess.run] raises and the adapter, which catches
    [json.JSONDecodeError] only, lets the exception through; a process
    that exits with a non-zero status after printing JSON gets its
    document returned, not [{}]; and an output of two thousand opening
    brackets, on which [json.loads] raises [RecursionError], makes the
    adapter raise although the process has finished. *)
Lemma adapter_raises_when_process_cannot_start :
  scan_with_trivy (fun _ => RunRaises OSError) (fun _ => JSONDecodeError) "nginx:latest"
    = Raise OSError
  /\ scan_with_grype (fun _ => RunRaises OSError) (fun _ => JSONDecodeError) "nginx:latest"
    = Raise OSError
  /\ scan_with_trivy (fun _ => Completed 1 "[1]" "")
       (fun s => if String.eqb s "[1]" then Parsed (JArr [JNum 1]) else JSONDecodeError)
       "nginx:latest"
    = Ok (JArr [JNum 1])
  /\ scan_with_grype (fun _ => Completed 0 (repeat_str "[" 2000) "")
       (fun s => if String.eqb s (repeat_str "[" 2000) then LoadsRaises RecursionError
                 else JSONDecodeError)
       "nginx:latest"
    = Raise RecursionError.
Proof. repeat split; vm_compute; reflexivity. Qed.

(** Two images; Trivy answers for both, Grype prints nothing: two
    records, in order. *)
Lemma scan_all_one_record_per_image_witness :
  let run := fun argv : list string =>
    match argv with
    | "trivy" :: _ => Completed 1 "T" ""
    | _ => Completed 1 "" "cannot pull image"
    end in
  let loads := fun s : string =>
    if String.eqb s "T" then Parsed (trivy_doc [trivy_vuln_of "CVE-2021-1" "openssl" "HIGH"])
    else JSONDecodeError in
  returns (scan_all run loads (init ["nginx:latest"; "alpine:3"])) = true
  /\ forall self', scan_all run loads (init ["nginx:latest"; "alpine:3"]) = Ok self' ->
       image <$> per_image (generate_report self') = ["nginx:latest"; "alpine:3"].
Proof.
  intros run loads.
  pose proof (scan_all_one_record_per_image run loads ["nginx:latest"; "alpine:3"]) as H.
  split.
  - apply (proj2 (proj2 H)). reflexivity.
  - intros self' Hs. exact (proj1 (proj1 (proj2 H) self' Hs)).
Defined.

(** Two records swapped, and the image list with them. *)
Lemma generate_report_order_independent_witness :
  let r1 := compare_results "nginx:latest" {[("CVE-2021-1", "openssl")]} ∅
              {["HIGH" := 1]} ∅ in
  let r2 := compare_results "alpine:3" {[("CVE-2022-2", "zlib")]}
              {[("CVE-2022-2", "zlib")]} {["HIGH" := 1]} {["LOW" := 1]} in
  report_summary (generate_report {| images := ["nginx:latest"; "alpine:3"];
                                     results := [r1; r2] |})
  = report_summary (generate_report {| images := ["alpine:3"; "nginx:latest"];
                                       results := [r2; r1] |}).
Proof.
  intros r1 r2.
  apply (generate_report_order_independent
    {| images := ["nginx:latest"; "alpine:3"]; results := [r1; r2] |}
    {| images := ["alpine:3"; "nginx:latest"]; results := [r2; r1] |});
    simpl; apply perm_swap.
Defined.


Lemma extract_top_level_kind_witness :
  (extract_trivy_vulns (JArr []) = Ok empty_result
   /\ extract_grype_vulns (JArr []) = Ok empty_result)
  /\ (extract_trivy_vulns (JArr [JNum 1]) = Raise AttributeError
      /\ extract_grype_vulns (JArr [JNum 1]) = Raise AttributeError).
Proof.
  split.
  - apply (proj1 (extract_top_level_kind (JArr []))). reflexivity.
  - apply (proj2 (extract_top_level_kind (JArr [JNum 1]))); [reflexivity|discriminate].
Defined.

Lemma extraction_order_irrelevant_witness :
  extract_trivy_vulns (trivy_doc [trivy_vuln_of "CVE-2022-2" "zlib" "low";
                                  trivy_vuln_of "CVE-2021-1" "openssl" "HIGH"])
  = Ok ({[("CVE-2021-1", "openssl"); ("CVE-2022-2", "zlib")]},
        {["HIGH" := 1; "LOW" := 1]})
  /\ extract_grype_vulns (grype_doc [grype_match_of "CVE-2022-2" "zlib" "low";
                                      grype_match_of "CVE-2021-1" "openssl" "HIGH"])
  = Ok ({[("CVE-2021-1", "openssl"); ("CVE-2022-2", "zlib")]},
        {["HIGH" := 1; "LOW" := 1]}).
Proof.
  apply (extraction_order_irrelevant
    [trivy_vuln_of "CVE-2021-1" "openssl" "HIGH"; trivy_vuln_of "CVE-2022-2" "zlib" "low"]
    [trivy_vuln_of "CVE-2022-2" "zlib" "low"; trivy_vuln_of "CVE-2021-1" "openssl" "HIGH"]
    [grype_match_of "CVE-2021-1" "openssl" "HIGH"; grype_match_of "CVE-2022-2" "zlib" "low"]
    [grype_match_of "CVE-2022-2" "zlib" "low"; grype_match_of "CVE-2021-1" "openssl" "HIGH"]);
    first [apply perm_swap | vm_compute; reflexivity].
Defined.

Lemma extraction_of_concatenation_witness :
  extract_trivy_vulns (trivy_results_doc
    [trivy_result_of [trivy_vuln_of "CVE-2021-1" "openssl" "HIGH"];
     trivy_result_of [trivy_vuln_of "CVE-2021-1" "openssl" "high";
                      trivy_vuln_of "CVE-2022-2" "zlib" "LOW"]])
  = Ok (merge_results ({[("CVE-2021-1", "openssl")]}, {["HIGH" := 1]})
          ({[("CVE-2021-1", "openssl"); ("CVE-2022-2", "zlib")]},
           {["HIGH" := 1; "LOW" := 1]}))
  /\ extract_grype_vulns (grype_doc [grype_match_of "CVE-2021-1" "openssl" "HIGH"])
  = Ok (merge_results empty_result ({[("CVE-2021-1", "openssl")]}, {["HIGH" := 1]})).
Proof.
  apply (extraction_of_concatenation
    [trivy_result_of [trivy_vuln_of "CVE-2021-1" "openssl" "HIGH"]]
    [trivy_result_of [trivy_vuln_of "CVE-2021-1" "openssl" "high";
                      trivy_vuln_of "CVE-2022-2" "zlib" "LOW"]]
    [] [grype_match_of "CVE-2021-1" "openssl" "HIGH"]);
    vm_compute; reflexivity.
Defined.

Lemma scan_all_of_concatenation_witness :
  let run := fun argv : list string =>
    match argv with
    | "trivy" :: _ => Completed 1 "T" ""
    | _ => Completed 1 "" "cannot pull image"
    end in
  let loads := fun s : string =>
    if String.eqb s "T" then Parsed (trivy_doc [trivy_vuln_of "CVE-2021-1" "openssl" "HIGH"])
    else JSONDecodeError in
  exists self1 self2,
    scan_all run loads (init ["nginx:latest"]) = Ok self1
    /\ scan_all run loads (init ["alpine:3"]) = Ok self2
    /\ length (results self1 ++ results self2) = 2.
Proof.
  intros run loads.
  destruct (scan_all run loads (init (["nginx:latest"] ++ ["alpine:3"]))) as [self| |] eqn:E;
    [|vm_compute in E; discriminate..].
  destruct (proj1 (scan_all_of_concatenation run loads ["nginx:latest"] ["alpine:3"] self) E)
    as (self1 & self2 & H1 & H2 & Hs).
  exists self1, self2. split; [exact H1|]. split; [exact H2|].
  vm_compute in H1. vm_compute in H2. inversion H1. inversion H2. reflexivity.
Defined.

Lemma scan_image_degraded_record_witness :
  let run := fun argv : list string =>
    match argv with
    | "trivy" :: _ => Completed 1 "" "image not found"
    | _ => Completed 0 "panic: out of memory" ""
    end in
  returns (scan_image run (fun _ => JSONDecodeError) "nginx:latest" []) = true.
Proof.
  intros run.
  rewrite (scan_image_degraded_record run (fun _ => JSONDecodeError) "nginx:latest" []
    1 0 "" "image not found" "panic: out of memory" "" eq_refl eq_refl
    (or_introl eq_refl) (or_intror eq_refl)).
  reflexivity.
Defined.

Lemma scan_all_aborts_when_process_cannot_start_witness :
  let run := fun argv : list string =>
    match argv with
    | ["grype"; "alpine:3"; _; _; _] => RunRaises OSError
    | _ => Completed 0 "" ""
    end in
  scan_all run (fun _ => JSONDecodeError) (init ["nginx:latest"; "alpine:3"; "debian:12"])
  = Raise OSError.
Proof.
  intros run.
  destruct (scan_all run (fun _ => JSONDecodeError) (init ["nginx:latest"])) as [self| |] eqn:E;
    [|vm_compute in E; discriminate..].
  apply (scan_all_aborts_when_process_cannot_start run (fun _ => JSONDecodeError)
           ["nginx:latest"] ["debian:12"] "alpine:3" OSError self E).
  right. split; reflexivity.
Defined.

Lemma report_totals_split_witness :
  let run := fun argv : list string =>
    match argv with
    | "trivy" :: _ => Completed 1 "T" ""
    | _ => Completed 1 "" "cannot pull image"
    end in
  let loads := fun s : string =>
    if String.eqb s "T" then Parsed (trivy_doc [trivy_vuln_of "CVE-2021-1" "openssl" "HIGH"])
    else JSONDecodeError in
  exists self,
    scan_all run loads (init ["nginx:latest"; "alpine:3"]) = Ok self
    /\ total_findings (trivy_summary (report_summary (generate_report self)))
       = common_findings (comparison_totals (report_summary (generate_report self)))
         + only_trivy_findings (comparison_totals (report_summary (generate_report self))).
Proof.
  intros run loads.
  destruct (scan_all run loads (init ["nginx:latest"; "alpine:3"])) as [self| |] eqn:E;
    [|vm_compute in E; discriminate..].
  exists self. split; [reflexivity|].
  exact (proj1 (report_totals_split run loads _ self E)).
Defined.

Lemma print_summary_breakdown_in_order_witness :
  print_summary {| images := ["nginx:latest"; "alpine:3"];
                   results := [compare_results "nginx:latest" ∅ ∅ ∅ ∅;
                               compare_results "alpine:3" ∅ ∅ ∅ ∅] |} !! 4
  = Some "alpine:3:".
Proof.
  exact (proj2 (print_summary_breakdown_in_order
    {| images := ["nginx:latest"; "alpine:3"];
       results := [compare_results "nginx:latest" ∅ ∅ ∅ ∅;
                   compare_results "alpine:3" ∅ ∅ ∅ ∅] |}
    1 (compare_results "alpine:3" ∅ ∅ ∅ ∅) eq_refl)).
Defined.

Lemma print_summary_shows_four_labels_only_witness :
  print_summary {| images := ["nginx:latest"];
                   results := [compare_results "nginx:latest"
                                 {[("CVE-2021-1", "openssl")]} ∅
                                 {["HIGH" := 1; "UNKNOWN" := 5]} ∅] |}
  = print_summary {| images := [];
                     results := [compare_results "nginx:latest"
                                   {[("CVE-2022-2", "zlib")]} ∅
                                   {["HIGH" := 1]} ∅] |}.
Proof.
  apply print_summary_shows_four_labels_only.
  repeat constructor.
Defined.

Lemma main_outputs_witness :
  let run := fun argv : list string =>
    match argv with
    | "trivy" :: _ => Completed 1 "T" ""
    | _ => Completed 1 "" "cannot pull image"
    end in
  let loads := fun s : string =>
    if String.eqb s "T" then Parsed (trivy_doc [trivy_vuln_of "CVE-2021-1" "openssl" "HIGH"])
    else JSONDecodeError in
  let dumps := fun r : report => str_of_nat (length (per_image r)) in
  let args := {| arg_images := ["nginx:latest"; "alpine:3"];
                 arg_output := Some "report.json"; arg_json := true |} in
  main run loads dumps (fun _ => true) args
    = Ok [FileWritten "report.json" "2"; Printed "2"]
  /\ exists scanner,
       scan_all run loads (init ["nginx:latest"; "alpine:3"]) = Ok scanner
       /\ image <$> per_image (generate_report scanner) = ["nginx:latest"; "alpine:3"].
Proof.
  intros run loads dumps args.
  assert (main run loads dumps (fun _ => true) args
          = Ok [FileWritten "report.json" "2"; Printed "2"]) as Hm
    by (vm_compute; reflexivity).
  split; [exact Hm|].
  destruct (main_outputs run loads dumps (fun _ => true) args _ Hm)
    as (scanner & Hs & Hi & _).
  exists scanner. split; [exact Hs | exact Hi].
Defined.

Lemma main_aborts_when_process_cannot_start_witness :
  let run := fun argv : list string =>
    match argv with
    | "trivy" :: _ => RunRaises OSError
    | _ => Completed 0 "" ""
    end in
  main run (fun _ => JSONDecodeError) (fun _ => "{}") (fun _ => true)
    {| arg_images := ["nginx:latest"]; arg_output := Some "report.json";
       arg_json := false |}
  = Raise OSError.
Proof.
  intros run.
  apply (main_aborts_when_process_cannot_start run (fun _ => JSONDecodeError) (fun _ => "{}")
           (fun _ => true) _ [] [] "nginx:latest" OSError (init []));
    [reflexivity | reflexivity | by left].
Defined.

Lemma main_raises_when_output_cannot_be_opened_witness :
  main (fun _ => Completed 0 "" "") (fun _ => JSONDecodeError) (fun _ => "{}") (fun _ => false)
    {| arg_images := ["nginx:latest"]; arg_output := Some "/nonexistent/report.json";
       arg_json := false |}
  = Raise OSError.
Proof.
  destruct (scan_all (fun _ => Completed 0 "" "") (fun _ => JSONDecodeError) (init ["nginx:latest"]))
    as [self| |] eqn:E; [|vm_compute in E; discriminate..].
  apply (main_raises_when_output_cannot_be_opened
           (fun _ => Completed 0 "" "") (fun _ => JSONDecodeError) (fun _ => "{}") (fun _ => false)
           {| arg_images := ["nginx:latest"];
              arg_output := Some "/nonexistent/report.json"; arg_json := false |}
           "/nonexistent/report.json" self E eq_refl); [discriminate|reflexivity].
Defined.
